(** * Credential and reset-token lifecycle of the SaaS starter backend

    A shallow embedding of the authentication routes of [main.py]
    ([signup], [login], [password_reset_request], [password_reset_confirm])
    together with the helper [hash_password], and the properties of the
    credential / reset-token state machine proved about them.

    Conventions of the embedding.
    - A Python [str] is represented by the [string] of its UTF-8 bytes, so
      [.encode()] is the identity on the underlying bytes and [+] on [str]
      is string append.
    - A naive [datetime] is the number of microseconds since
      0001-01-01 00:00:00 (the resolution of [datetime]); [timedelta] is a
      number of microseconds.
    - A collection is the list of its documents in insertion order, each
      as the route handed it to [insert_one]; [find_one] and [update_one]
      act on the first match.  MongoDB keeps a datetime to the millisecond
      only ([Datetime.as_stored]), so a datetime read back may be up to
      999 microseconds earlier than the one written.  The routes read a
      datetime back in two places.  One is the expiry check of
      [password_reset_confirm]: a token issued by a route is called
      unexpired when the check is not after what the store keeps of its
      [expires_at], and the run that sits exactly on the boundary uses a
      clock that reads whole milliseconds.  The other is the
      [published_at] that [get_blog_post] returns: it is stated as the
      stored one, never as a clock reading.
    - [datetime.utcnow()], [uuid.uuid4()] and the driver's ObjectId
      generator are the three sources of non-determinism.  The clock and
      the entropy source are oracles indexed by the number of reads made so
      far; ObjectIds are drawn from a counter. *)

From Stdlib Require Import ZArith List String Ascii Lia DecimalString DecimalNat.
From stdpp Require Import base option list strings gmap.

Import ListNotations.

(** ** Fixed-width positional notation (hexdigest, [%032x], [%02d]) *)

Module Digits.
Local Open Scope Z_scope.

Definition digit_char (d : Z) : ascii :=
  match d with
  | 0 => "0" | 1 => "1" | 2 => "2" | 3 => "3" | 4 => "4" | 5 => "5"
  | 6 => "6" | 7 => "7" | 8 => "8" | 9 => "9" | 10 => "a" | 11 => "b"
  | 12 => "c" | 13 => "d" | 14 => "e" | _ => "f"
  end%char.

(** [fixed base n z]: the [n] least significant digits of [z] in [base],
    most significant first, zero padded. *)
Fixpoint fixed (base : Z) (n : nat) (z : Z) : string :=
  match n with
  | O => EmptyString
  | S n' => String (digit_char ((z / base ^ Z.of_nat n') mod base)) (fixed base n' z)
  end.

Definition hex (n : nat) (z : Z) : string := fixed 16 n z.
Definition dec (n : nat) (z : Z) : string := fixed 10 n z.
End Digits.

(** ** hashlib.sha256 (FIPS 180-4) *)

Module SHA256.
Local Open Scope Z_scope.

Definition wrap (x : Z) : Z := x mod 2 ^ 32.
Definition add32 (x y : Z) : Z := wrap (x + y).

Definition shr (n x : Z) : Z := Z.shiftr x n.
Definition rotr (n x : Z) : Z :=
  Z.lor (Z.shiftr x n) (wrap (Z.shiftl x (32 - n))).
Definition not32 (x : Z) : Z := Z.lxor x (2 ^ 32 - 1).

Definition Ch (x y z : Z) : Z := Z.lxor (Z.land x y) (Z.land (not32 x) z).
Definition Maj (x y z : Z) : Z :=
  Z.lxor (Z.lxor (Z.land x y) (Z.land x z)) (Z.land y z).
Definition Sigma0 (x : Z) : Z := Z.lxor (Z.lxor (rotr 2 x) (rotr 13 x)) (rotr 22 x).
Definition Sigma1 (x : Z) : Z := Z.lxor (Z.lxor (rotr 6 x) (rotr 11 x)) (rotr 25 x).
Definition sigma0 (x : Z) : Z := Z.lxor (Z.lxor (rotr 7 x) (rotr 18 x)) (shr 3 x).
Definition sigma1 (x : Z) : Z := Z.lxor (Z.lxor (rotr 17 x) (rotr 19 x)) (shr 10 x).

(** Round constants: fractional parts of the cube roots of the first 64
    primes. *)
Definition K : list Z :=
  [ 1116352408; 1899447441; 3049323471; 3921009573; 961987163; 1508970993;
    2453635748; 2870763221; 3624381080; 310598401; 607225278; 1426881987;
    1925078388; 2162078206; 2614888103; 3248222580; 3835390401; 4022224774;
    264347078; 604807628; 770255983; 1249150122; 1555081692; 1996064986;
    2554220882; 2821834349; 2952996808; 3210313671; 3336571891; 3584528711;
    113926993; 338241895; 666307205; 773529912; 1294757372; 1396182291;
    1695183700; 1986661051; 2177026350; 2456956037; 2730485921; 2820302411;
    3259730800; 3345764771; 3516065817; 3600352804; 4094571909; 275423344;
    430227734; 506948616; 659060556; 883997877; 958139571; 1322822218;
    1537002063; 1747873779; 1955562222; 2024104815; 2227730452; 2361852424;
    2428436474; 2756734187; 3204031479; 3329325298 ].

(** The eight working variables / the chaining value. *)
Record regs : Type := Regs {
  ra : Z; rb : Z; rc : Z; rd : Z; re : Z; rf : Z; rg : Z; rh : Z
}.

(** Initial hash value: square roots of the first eight primes. *)
Definition H0 : regs :=
  Regs 1779033703 3144134277 1013904242 2773480762
       1359893119 2600822924 528734635 1541459225.

(** Padding: a 1 bit, zeros up to 56 mod 64 bytes, the bit length on 64
    bits, big endian. *)
Definition be_bytes (n : nat) (z : Z) : list Z :=
  map (fun i => (z / 256 ^ Z.of_nat i) mod 256) (rev (seq 0 n)).

Definition pad (msg : list Z) : list Z :=
  let len := Z.of_nat (length msg) in
  msg ++ [128] ++ repeat 0 (Z.to_nat ((55 - len) mod 64)) ++ be_bytes 8 (8 * len).

Fixpoint be_words (bs : list Z) : list Z :=
  match bs with
  | b0 :: b1 :: b2 :: b3 :: rest =>
      (b0 * 2 ^ 24 + b1 * 2 ^ 16 + b2 * 2 ^ 8 + b3) :: be_words rest
  | _ => []
  end.

(** Message schedule: [extend n w] appends [n] further words to [w]. *)
Fixpoint extend (n : nat) (w : list Z) : list Z :=
  match n with
  | O => w
  | S n' =>
      let t := length w in
      let at_ (back : nat) := nth (t - back) w 0 in
      extend n' (w ++ [add32 (add32 (sigma1 (at_ 2%nat)) (at_ 7%nat))
                             (add32 (sigma0 (at_ 15%nat)) (at_ 16%nat))])
  end.

Definition round (s : regs) (kw : Z * Z) : regs :=
  let t1 := add32 (add32 (add32 (add32 (rh s) (Sigma1 (re s)))
                                (Ch (re s) (rf s) (rg s))) (fst kw)) (snd kw) in
  let t2 := add32 (Sigma0 (ra s)) (Maj (ra s) (rb s) (rc s)) in
  Regs (add32 t1 t2) (ra s) (rb s) (rc s) (add32 (rd s) t1) (re s) (rf s) (rg s).

Definition compress (h : regs) (block : list Z) : regs :=
  let s := fold_left round (combine K (extend 48 block)) h in
  Regs (add32 (ra h) (ra s)) (add32 (rb h) (rb s)) (add32 (rc h) (rc s))
       (add32 (rd h) (rd s)) (add32 (re h) (re s)) (add32 (rf h) (rf s))
       (add32 (rg h) (rg s)) (add32 (rh h) (rh s)).

Fixpoint blocks (n : nat) (ws : list Z) (h : regs) : regs :=
  match n with
  | O => h
  | S n' => blocks n' (skipn 16 ws) (compress h (firstn 16 ws))
  end.

Definition bytes_of (s : string) : list Z :=
  map (fun c => Z.of_N (N_of_ascii c)) (list_ascii_of_string s).

(** The chaining value after the last block. *)
Definition digest (s : string) : regs :=
  let ws := be_words (pad (bytes_of s)) in
  blocks (length ws / 16) ws H0.

Definition hex_of_regs (h : regs) : string :=
  (Digits.hex 8 (ra h) ++ Digits.hex 8 (rb h) ++ Digits.hex 8 (rc h)
   ++ Digits.hex 8 (rd h) ++ Digits.hex 8 (re h) ++ Digits.hex 8 (rf h)
   ++ Digits.hex 8 (rg h) ++ Digits.hex 8 (rh h))%string.

(** The digest read as one 256-bit integer, big endian. *)
Definition int_of_regs (h : regs) : Z :=
  ((((((ra h * 2 ^ 32 + rb h) * 2 ^ 32 + rc h) * 2 ^ 32 + rd h) * 2 ^ 32
      + re h) * 2 ^ 32 + rf h) * 2 ^ 32 + rg h) * 2 ^ 32 + rh h.

Definition is_word (x : Z) : Prop := 0 <= x < 2 ^ 32.

Definition words (h : regs) : Prop :=
  is_word (ra h) /\ is_word (rb h) /\ is_word (rc h) /\ is_word (rd h)
  /\ is_word (re h) /\ is_word (rf h) /\ is_word (rg h) /\ is_word (rh h).

(** [sha256(s.encode()).hexdigest()] *)
Definition hexdigest (s : string) : string := hex_of_regs (digest s).
End SHA256.


(** ** datetime: [str(datetime)] and [timedelta] *)

Module Datetime.
Local Open Scope Z_scope.

(** [timedelta(hours=n)], in microseconds. *)
Definition hours (n : Z) : Z := n * 3600 * 1000000.

(** What the document store keeps of a datetime: a BSON date counts
    milliseconds, the microseconds below the millisecond are cut off. *)
Definition as_stored (d : Z) : Z := d - d mod 1000.

Definition days_before_month (m : Z) : Z :=
  match m with
  | 1 => 0 | 2 => 31 | 3 => 59 | 4 => 90 | 5 => 120 | 6 => 151 | 7 => 181
  | 8 => 212 | 9 => 243 | 10 => 273 | 11 => 304 | _ => 334
  end.

Definition days_in_month (m : Z) : Z :=
  match m with
  | 2 => 28
  | 4 | 6 | 9 | 11 => 30
  | _ => 31
  end.

(** Proleptic Gregorian ordinal (minus one) to (year, month, day), the
    way [datetime] does it: 400-, 100-, 4- and 1-year cycles. *)
Definition ymd_of_days (n : Z) : Z * Z * Z :=
  let n400 := n / 146097 in let n := n mod 146097 in
  let n100 := n / 36524 in let n := n mod 36524 in
  let n4 := n / 1461 in let n := n mod 1461 in
  let n1 := n / 365 in let n := n mod 365 in
  let year := n400 * 400 + 1 + n100 * 100 + n4 * 4 + n1 in
  if (n1 =? 4) || (n100 =? 4) then (year - 1, 12, 31)
  else
    let leap := (n1 =? 3) && (negb (n4 =? 24) || (n100 =? 3)) in
    let leap_day (b : bool) : Z := if b && leap then 1 else 0 in
    let month := Z.shiftr (n + 50) 5 in
    let preceding := days_before_month month + leap_day (2 <? month) in
    if n <? preceding
    then
      let month' := month - 1 in
      let preceding' := preceding - (days_in_month month' + leap_day (month' =? 2)) in
      (year, month', n - preceding' + 1)
    else (year, month, n - preceding + 1).

(** [str(d)] for a naive datetime: ISO format with a space separator,
    the fraction printed only when non-zero. *)
Definition str (d : Z) : string :=
  let us := d mod 1000000 in
  let s := d / 1000000 in
  let '(y, m, dd) := ymd_of_days (s / 86400) in
  let sod := s mod 86400 in
  (Digits.dec 4 y ++ "-" ++ Digits.dec 2 m ++ "-" ++ Digits.dec 2 dd ++ " "
   ++ Digits.dec 2 (sod / 3600) ++ ":" ++ Digits.dec 2 (sod / 60 mod 60)
   ++ ":" ++ Digits.dec 2 (sod mod 60)
   ++ (if (us =? 0)%Z then "" else "." ++ Digits.dec 6 us))%string.
End Datetime.

(** ** uuid.uuid4().hex *)

Module UUID.
Local Open Scope Z_scope.

(** [UUID(bytes=os.urandom(16), version=4).int], from the integer value
    of the sixteen random bytes: variant and version bits are forced. *)
Definition uuid4_int (r : Z) : Z :=
  let i := r mod 2 ^ 128 in
  let i := Z.land i (Z.lnot (Z.shiftl 49152 48)) in
  let i := Z.lor i (Z.shiftl 32768 48) in
  let i := Z.land i (Z.lnot (Z.shiftl 61440 64)) in
  Z.lor i (Z.shiftl 4 76).

(** ['%032x' % int] *)
Definition uuid4_hex (r : Z) : string := Digits.hex 32 (uuid4_int r).
End UUID.


(** ** Documents (schemas.py) *)

Abbreviation ObjectId := nat (only parsing).

Module User.
Record t : Type := mk {
  email : string;
  name : option string;
  hashed_password : string;
  created_at : Z;
  updated_at : Z
}.

(** [{"$set": {"hashed_password": hp, "updated_at": now}}] *)
Definition set_password (hp : string) (now : Z) (u : t) : t :=
  {| email := email u; name := name u; hashed_password := hp;
     created_at := created_at u; updated_at := now |}.
End User.

Module PasswordResetToken.
Record t : Type := mk {
  user_email : string;
  token : string;
  expires_at : Z;
  used : bool;
  created_at : Z;
  updated_at : Z
}.

(** [{"$set": {"used": True, "updated_at": now}}] *)
Definition set_used (now : Z) (r : t) : t :=
  {| user_email := user_email r; token := token r; expires_at := expires_at r;
     used := true; created_at := created_at r; updated_at := now |}.
End PasswordResetToken.

(** ** Request models and responses

    A request model is the payload as the route body receives it, that is,
    after the framework has validated it: the routes see the email as a
    plain string and compare it as such. *)

Module SignupRequest.
Record t : Type := mk { email : string; password : string; name : option string }.
End SignupRequest.

Module LoginRequest.
Record t : Type := mk { email : string; password : string }.
End LoginRequest.

Module PasswordResetRequest.
Record t : Type := mk { email : string }.
End PasswordResetRequest.

Module PasswordResetConfirm.
Record t : Type := mk { token : string; new_password : string }.
End PasswordResetConfirm.

(** The JSON values the routes return; a [dict] literal is the list of its
    items in order. *)
#[warnings="-register-all"]
Inductive json : Type :=
| JNull
| JBool (b : bool)
| JStr (s : string)
| JObj (items : list (string * json)).

Definition json_of_option (o : option string) : json :=
  match o with Some s => JStr s | None => JNull end.

(** [d.get(key)] on a response dict. *)
Fixpoint items_get (key : string) (items : list (string * json)) : option json :=
  match items with
  | [] => None
  | (k, v) :: rest => if String.eqb k key then Some v else items_get key rest
  end.

Definition json_get (key : string) (j : json) : option json :=
  match j with JObj items => items_get key items | _ => None end.


Record HTTPException : Type := mkHTTPException {
  status_code : Z;
  detail : string
}.

Inductive result (A : Type) : Type :=
| Return (a : A)
| Raise (e : HTTPException).
Arguments Return {A} a.
Arguments Raise {A} e.

(** What the framework sends for a route's outcome: a returned dict goes
    out with status 200, an [HTTPException] with its own status and the
    body [{"detail": ...}]. *)
Definition http_status (r : result json) : Z :=
  match r with Return _ => 200%Z | Raise e => status_code e end.

Definition http_body (r : result json) : json :=
  match r with Return j => j | Raise e => JObj [("detail", JStr (detail e))] end.

(** ** The document store and the process state *)

(** A stored document carries the [_id] the driver gave it. *)
Abbreviation collection A := (list (ObjectId * A)).

Record World : Type := mkWorld {
  users : collection User.t;                      (* db["user"] *)
  reset_tokens : collection PasswordResetToken.t; (* db["passwordresettoken"] *)
  next_oid : nat;        (* ObjectIds handed out so far *)
  clock_reads : nat;     (* calls of datetime.utcnow() so far *)
  entropy_reads : nat    (* calls of uuid.uuid4() so far *)
}.

Definition empty_world : World := mkWorld [] [] 0 0 0.

(** A handle on one collection of [db]. *)
Record handle (A : Type) : Type := mkHandle {
  coll_get : World -> collection A;
  coll_set : collection A -> World -> World
}.
Arguments coll_get {A} h w.
Arguments coll_set {A} h c w.

Definition db_user : handle User.t :=
  mkHandle User.t users
    (fun c w => mkWorld c (reset_tokens w) (next_oid w) (clock_reads w) (entropy_reads w)).

Definition db_passwordresettoken : handle PasswordResetToken.t :=
  mkHandle PasswordResetToken.t reset_tokens
    (fun c w => mkWorld (users w) c (next_oid w) (clock_reads w) (entropy_reads w)).

(** Pure collection operations: first match in insertion order. *)
Definition coll_find_one {A} (q : ObjectId * A -> Prop) `{!forall d, Decision (q d)}
    (c : collection A) : option (ObjectId * A) :=
  snd <$> list_find q c.

Definition coll_update_one {A} (q : ObjectId * A -> Prop) `{!forall d, Decision (q d)}
    (set : A -> A) (c : collection A) : collection A :=
  match list_find q c with
  | Some (i, d) => <[i := (d.1, set d.2)]> c
  | None => c
  end.

(** The filters the routes send to the store. *)
Definition by_email (e : string) (d : ObjectId * User.t) : Prop := User.email d.2 = e.
Definition by_unused_token (t : string) (d : ObjectId * PasswordResetToken.t) : Prop :=
  PasswordResetToken.token d.2 = t /\ PasswordResetToken.used d.2 = false.
Definition by_id {A} (i : ObjectId) (d : ObjectId * A) : Prop := d.1 = i.

#[global] Instance by_email_dec e d : Decision (by_email e d) :=
  decide (User.email d.2 = e).
#[global] Instance by_unused_token_dec t d : Decision (by_unused_token t d) :=
  decide (PasswordResetToken.token d.2 = t /\ PasswordResetToken.used d.2 = false).
#[global] Instance by_id_dec {A} i (d : ObjectId * A) : Decision (by_id i d) :=
  decide (d.1 = i).

(** ** The route monad: state over [World], with [HTTPException] *)

Definition M (A : Type) : Type := World -> result A * World.

Definition ret {A} (a : A) : M A := fun w => (Return a, w).
Definition raise {A} (e : HTTPException) : M A := fun w => (Raise e, w).
Definition bind {A B} (m : M A) (k : A -> M B) : M B :=
  fun w => match m w with
           | (Return a, w') => k a w'
           | (Raise e, w') => (Raise e, w')
           end.

Declare Scope route_scope.
Delimit Scope route_scope with route.
Notation "x <- m ;; k" := (bind m (fun x => k))
  (at level 100, m at next level, right associativity) : route_scope.
Notation "m ;;; k" := (bind m (fun _ => k))
  (at level 100, right associativity) : route_scope.

Definition find_one {A} (h : handle A) (q : ObjectId * A -> Prop)
    `{!forall d, Decision (q d)} : M (option (ObjectId * A)) :=
  fun w => (Return (coll_find_one q (coll_get h w)), w).

Definition insert_one {A} (h : handle A) (doc : A) : M unit :=
  fun w =>
    let w' := coll_set h (coll_get h w ++ [(next_oid w, doc)]) w in
    (Return tt,
     mkWorld (users w') (reset_tokens w') (S (next_oid w')) (clock_reads w') (entropy_reads w')).

Definition update_one {A} (h : handle A) (q : ObjectId * A -> Prop)
    `{!forall d, Decision (q d)} (set : A -> A) : M unit :=
  fun w => (Return tt, coll_set h (coll_update_one q set (coll_get h w)) w).

(** ** main.py *)

Module Main.
Section Server.
(** [os.environ], the wall clock and the entropy source of the process. *)
Variable environ : gmap string string.
Variable clock : nat -> Z.
Variable urandom16 : nat -> Z.

Local Open Scope route_scope.

(** [datetime.utcnow()] *)
Definition utcnow : M Z :=
  fun w => (Return (clock (clock_reads w)),
            mkWorld (users w) (reset_tokens w) (next_oid w) (S (clock_reads w)) (entropy_reads w)).

(** [uuid.uuid4().hex] *)
Definition uuid4_hex : M string :=
  fun w => (Return (UUID.uuid4_hex (urandom16 (entropy_reads w))),
            mkWorld (users w) (reset_tokens w) (next_oid w) (clock_reads w) (S (entropy_reads w))).

(** [os.getenv(key, default)] *)
Definition getenv (key dflt : string) : string := default dflt (environ !! key).

Definition hash_password (pw : string) : string :=
  let salt := getenv "APP_SALT" "static_salt_change_me" in
  SHA256.hexdigest (salt ++ pw).

Definition signup (payload : SignupRequest.t) : M json :=
  found <- find_one db_user (by_email (SignupRequest.email payload)) ;;
  if found is Some _ then
    raise (mkHTTPException 400 "Email already registered")
  else
    let hp := hash_password (SignupRequest.password payload) in
    created <- utcnow ;;
    updated <- utcnow ;;
    insert_one db_user
      {| User.email := SignupRequest.email payload;
         User.name := SignupRequest.name payload;
         User.hashed_password := hp;
         User.created_at := created;
         User.updated_at := updated |} ;;;
    ret (JObj [("ok", JBool true);
               ("message", JStr "Account created. You can now log in.")]).

Definition login (payload : LoginRequest.t) : M json :=
  user <- find_one db_user (by_email (LoginRequest.email payload)) ;;
  if match user with
     | None => true
     | Some u => bool_decide (User.hashed_password u.2
                              <> hash_password (LoginRequest.password payload))
     end
  then raise (mkHTTPException 401 "Invalid credentials")
  else
    now <- utcnow ;;
    let token := SHA256.hexdigest (LoginRequest.email payload ++ ":" ++ Datetime.str now) in
    ret (JObj [("ok", JBool true);
               ("token", JStr token);
               ("user", JObj [("email", json_of_option (User.email ∘ snd <$> user));
                              ("name", json_of_option (user ≫= User.name ∘ snd))])]).

Definition password_reset_request (payload : PasswordResetRequest.t) : M json :=
  user <- find_one db_user (by_email (PasswordResetRequest.email payload)) ;;
  if user is None then
    ret (JObj [("ok", JBool true);
               ("message", JStr "If that email exists, a reset link was sent.")])
  else
    token <- uuid4_hex ;;
    now <- utcnow ;;
    let expires_at := (now + Datetime.hours 1)%Z in
    created <- utcnow ;;
    updated <- utcnow ;;
    insert_one db_passwordresettoken
      {| PasswordResetToken.user_email := PasswordResetRequest.email payload;
         PasswordResetToken.token := token;
         PasswordResetToken.expires_at := expires_at;
         PasswordResetToken.used := false;
         PasswordResetToken.created_at := created;
         PasswordResetToken.updated_at := updated |} ;;;
    ret (JObj [("ok", JBool true);
               ("message", JStr "Reset email sent.");
               ("preview_token", JStr token)]).

Definition password_reset_confirm (payload : PasswordResetConfirm.t) : M json :=
  found <- find_one db_passwordresettoken
             (by_unused_token (PasswordResetConfirm.token payload)) ;;
  match found with
  | None => raise (mkHTTPException 400 "Invalid token")
  | Some rec =>
      now <- utcnow ;;
      if bool_decide (PasswordResetToken.expires_at rec.2 < now)%Z then
        raise (mkHTTPException 400 "Token expired")
      else
        let hp := hash_password (PasswordResetConfirm.new_password payload) in
        updated <- utcnow ;;
        update_one db_user (by_email (PasswordResetToken.user_email rec.2))
          (User.set_password hp updated) ;;;
        updated' <- utcnow ;;
        update_one db_passwordresettoken (by_id rec.1)
          (PasswordResetToken.set_used updated') ;;;
        ret (JObj [("ok", JBool true);
                   ("message", JStr "Password has been reset.")])
  end.

(** The four routes behind one entry point, and a session of requests. *)
Inductive Request : Type :=
| PostSignup (p : SignupRequest.t)
| PostLogin (p : LoginRequest.t)
| PostForgot (p : PasswordResetRequest.t)
| PostReset (p : PasswordResetConfirm.t).

Definition route (r : Request) : M json :=
  match r with
  | PostSignup p => signup p
  | PostLogin p => login p
  | PostForgot p => password_reset_request p
  | PostReset p => password_reset_confirm p
  end.

Fixpoint serve (rs : list Request) (w : World) : World :=
  match rs with
  | [] => w
  | r :: rs' => serve rs' (route r w).2
  end.
End Server.
End Main.


(** The success bodies of the routes. *)
Definition signup_ok_body : json :=
  JObj [("ok", JBool true); ("message", JStr "Account created. You can now log in.")].

Definition login_ok_body (token email : string) (name : option string) : json :=
  JObj [("ok", JBool true);
        ("token", JStr token);
        ("user", JObj [("email", JStr email); ("name", json_of_option name)])].

Definition forgot_absent_body : json :=
  JObj [("ok", JBool true);
        ("message", JStr "If that email exists, a reset link was sent.")].

Definition forgot_present_body (token : string) : json :=
  JObj [("ok", JBool true); ("message", JStr "Reset email sent.");
        ("preview_token", JStr token)].

Definition reset_ok_body : json :=
  JObj [("ok", JBool true); ("message", JStr "Password has been reset.")].

(** The four client errors of the routes, by the names the specification
    gives them. *)
Definition DuplicateEmail : HTTPException := mkHTTPException 400 "Email already registered".
Definition InvalidCredentials : HTTPException := mkHTTPException 401 "Invalid credentials".
Definition InvalidToken : HTTPException := mkHTTPException 400 "Invalid token".
Definition TokenExpired : HTTPException := mkHTTPException 400 "Token expired".

(** [first_match q c j d]: [d] sits at position [j] of [c], satisfies [q],
    and nothing before it does. *)
Definition first_match {A} (q : ObjectId * A -> Prop) (c : collection A)
    (j : nat) (d : ObjectId * A) : Prop :=
  c !! j = Some d /\ q d /\ forall i d', c !! i = Some d' -> (i < j)%nat -> ~ q d'.

Definition no_match {A} (q : ObjectId * A -> Prop) (c : collection A) : Prop :=
  forall d, d ∈ c -> ~ q d.

(** Store invariant kept by the driver: [_id]s are unique within a
    collection and were all handed out already. *)
Definition ids_ok {A} (n : nat) (c : collection A) : Prop :=
  NoDup c.*1 /\ Forall (fun d => (d.1 < n)%nat) c.

Definition store_ok (w : World) : Prop :=
  ids_ok (next_oid w) (users w) /\ ids_ok (next_oid w) (reset_tokens w).

(** The world after [n] further clock reads and nothing else. *)
Definition ticked (n : nat) (w : World) : World :=
  mkWorld (users w) (reset_tokens w) (next_oid w) (n + clock_reads w) (entropy_reads w).

(** Every stored reset token came out of an earlier [uuid4()] call, and
    the next [uuid4()] repeats none of the earlier ones. *)
Definition issued_by_uuid4 (urandom16 : nat -> Z) (w : World) : Prop :=
  forall d, d ∈ reset_tokens w ->
    exists k, (k < entropy_reads w)%nat
              /\ PasswordResetToken.token d.2 = UUID.uuid4_hex (urandom16 k).

Definition next_uuid_is_new (urandom16 : nat -> Z) (w : World) : Prop :=
  forall k, (k < entropy_reads w)%nat ->
    UUID.uuid4_hex (urandom16 k) <> UUID.uuid4_hex (urandom16 (entropy_reads w)).

(** ** The reset state machine, as the specification words it

    [confirm_reset(token, new_password)]:
    1. look up a PasswordResetToken by exact token string where
       [used == false]; if none, fail with [InvalidToken];
    2. if found but [expires_at < now], fail with [TokenExpired];
    3. otherwise update the User matched by [user_email], setting
       [hashed_password = hash(new_password)] and [updated_at = now], then
       mark the token [used = true], [updated_at = now].
    "now" is the clock at the moment the step runs: the three steps read
    the clock one after the other. *)

Section StateMachine.
Variable environ : gmap string string.
Variable clock : nat -> Z.

Definition user_password_set (e hp : string) (now : Z)
    (us us' : collection User.t) : Prop :=
  (no_match (by_email e) us /\ us' = us)
  \/ (exists i u, first_match (by_email e) us i u
        /\ us' = <[i := (u.1, User.mk (User.email u.2) (User.name u.2) hp
                                      (User.created_at u.2) now)]> us).

Definition token_marked_used (j : nat) (rec : ObjectId * PasswordResetToken.t)
    (now : Z) (ts ts' : collection PasswordResetToken.t) : Prop :=
  ts' = <[j := (rec.1,
                PasswordResetToken.mk
                  (PasswordResetToken.user_email rec.2) (PasswordResetToken.token rec.2)
                  (PasswordResetToken.expires_at rec.2) true
                  (PasswordResetToken.created_at rec.2) now)]> ts.

Inductive confirm_reset_spec (p : PasswordResetConfirm.t) (w : World) :
    result json * World -> Prop :=
| reset_invalid_token :
    no_match (by_unused_token (PasswordResetConfirm.token p)) (reset_tokens w) ->
    confirm_reset_spec p w (Raise InvalidToken, w)
| reset_token_expired j rec :
    first_match (by_unused_token (PasswordResetConfirm.token p)) (reset_tokens w) j rec ->
    (PasswordResetToken.expires_at rec.2 < clock (clock_reads w))%Z ->
    confirm_reset_spec p w (Raise TokenExpired, ticked 1 w)
| reset_redeemed j rec us' ts' :
    first_match (by_unused_token (PasswordResetConfirm.token p)) (reset_tokens w) j rec ->
    ~ (PasswordResetToken.expires_at rec.2 < clock (clock_reads w))%Z ->
    user_password_set (PasswordResetToken.user_email rec.2)
      (Main.hash_password environ (PasswordResetConfirm.new_password p))
      (clock (1 + clock_reads w)) (users w) us' ->
    token_marked_used j rec (clock (2 + clock_reads w)) (reset_tokens w) ts' ->
    confirm_reset_spec p w
      (Return reset_ok_body,
       mkWorld us' ts' (next_oid w) (3 + clock_reads w) (entropy_reads w)).
End StateMachine.


(** ["a" * n] *)
Fixpoint a_string (n : nat) : string :=
  match n with O => EmptyString | S n' => String "a" (a_string n') end.

(** ** Concrete processes and stores used in the examples

    The scenario of the specification: no [APP_SALT] in the environment, a
    clock that starts at 2026-11-04 09:42:00.123456 and advances one
    millisecond per read, and an entropy source counting up from
    0x0123456789abcdef0123456789abcdef. *)

Definition scenario_clock (n : nat) : Z := (63929382120123456 + 1000 * Z.of_nat n)%Z.

Definition scenario_urandom (n : nat) : Z :=
  (1512366075204170929049582354406559215 + Z.of_nat n)%Z.

Definition scenario_route : Main.Request -> M json :=
  Main.route ∅ scenario_clock scenario_urandom.

(** signup("a@x.com","p1"); login("a@x.com","p1"); login("a@x.com","wrong") *)
Definition scenario_registered : World :=
  Main.serve ∅ scenario_clock scenario_urandom
    [Main.PostSignup (SignupRequest.mk "a@x.com" "p1" None);
     Main.PostLogin (LoginRequest.mk "a@x.com" "p1");
     Main.PostLogin (LoginRequest.mk "a@x.com" "wrong")]
    empty_world.

(** ... then request_reset("a@x.com") *)
Definition scenario_issued : World :=
  (scenario_route (Main.PostForgot (PasswordResetRequest.mk "a@x.com")) scenario_registered).2.

Definition scenario_token : string := "0123456789ab4def8123456789abcdef".

(** A clock that starts at 2026-11-04 09:42:00.123 and advances twenty
    minutes per read, and the store after signup("a@x.com","p1") and
    request_reset("a@x.com") under that clock: the next read, the one
    [password_reset_confirm] compares with [expires_at], comes exactly one
    hour after the read that fixed [expires_at].  Every reading is a whole
    number of milliseconds, so a store that keeps datetimes to the
    millisecond hands [expires_at] back as it was written. *)
Definition boundary_clock (n : nat) : Z :=
  (63929382120123000 + 1200000000 * Z.of_nat n)%Z.

Definition boundary_world : World :=
  Main.serve ∅ boundary_clock scenario_urandom
    [Main.PostSignup (SignupRequest.mk "a@x.com" "p1" None);
     Main.PostForgot (PasswordResetRequest.mk "a@x.com")]
    empty_world.

(** The scenario clock, two hours later. *)
Definition late_clock (n : nat) : Z := (scenario_clock n + Datetime.hours 2)%Z.

(** A store whose only token points at an email no User has; the token was
    issued at the start of the scenario clock. *)
Definition orphan_token : PasswordResetToken.t :=
  PasswordResetToken.mk "ghost@x.com" "T" (scenario_clock 0 + Datetime.hours 1)
    false (scenario_clock 0) (scenario_clock 0).

Definition orphan_world : World := mkWorld [] [(0%nat, orphan_token)] 1 1 0.

(** ** The blog routes of main.py

    The slug of a post is cut out of its title character by character
    ([strip], [replace], [[:60]]), so for these routes a Python [str] is
    the list of its code points.  [str.lower] needs the Unicode character
    database and [str(ObjectId)] the driver's rendering of an [_id]; both
    are parameters of the routes. *)

Abbreviation pystr := (list N).

Module PyStr.
(** A literal, written in ASCII. *)
Definition lit (s : string) : pystr := map N_of_ascii (list_ascii_of_string s).

(** [c.isspace()]: the code points [str.strip()] removes. *)
Definition isspace (c : N) : bool :=
  ((9 <=? c) && (c <=? 13) || (28 <=? c) && (c <=? 32) || (c =? 133) || (c =? 160)
   || (c =? 5760) || (8192 <=? c) && (c <=? 8202) || (c =? 8232) || (c =? 8233)
   || (c =? 8239) || (c =? 8287) || (c =? 12288))%N.

Fixpoint lstrip (s : pystr) : pystr :=
  match s with
  | c :: rest => if isspace c then lstrip rest else s
  | [] => []
  end.

Definition rstrip (s : pystr) : pystr := rev (lstrip (rev s)).

(** [s.strip()] *)
Definition strip (s : pystr) : pystr := rstrip (lstrip s).

(** [s.replace(old, new)] for one-character [old] and [new]. *)
Definition replace (old new : N) (s : pystr) : pystr :=
  map (fun c => if (c =? old)%N then new else c) s.

(** [f"{i}"] for a non-negative [int]. *)
Definition of_nat (i : nat) : pystr := lit (NilEmpty.string_of_uint (Nat.to_uint i)).

Definition space : N := 32.
Definition slash : N := 47.
Definition hyphen : N := 45.
End PyStr.

Module BlogPost.
Record t : Type := mk {
  title : pystr;
  slug : option pystr;
  excerpt : option pystr;
  content : pystr;
  image_url : option pystr;
  author : option pystr;
  published_at : option Z;
  created_at : option Z;
  updated_at : option Z
}.
End BlogPost.

Module BlogPostCreate.
Record t : Type := mk {
  title : pystr;
  excerpt : option pystr;
  content : pystr;
  image_url : option pystr;
  author : option pystr
}.
End BlogPostCreate.

(** The dict [get_blog_post] returns, and the one [create_blog_post] returns. *)
Module BlogPostOut.
Record t : Type := mk {
  id : pystr;
  title : option pystr;
  content : option pystr;
  image_url : option pystr;
  author : option pystr;
  published_at : option Z;
  slug : option pystr
}.
End BlogPostOut.

Module BlogCreated.
Record t : Type := mk { ok : bool; slug : pystr }.
End BlogCreated.

(** The whole database: the collections of the auth routes, with the
    counters of the process, and [db["blogpost"]]. *)
Record Site : Type := mkSite {
  auth : World;
  blogposts : collection BlogPost.t
}.

Definition empty_site : Site := mkSite empty_world [].

(** [{"slug": slug}] *)
Definition by_slug (slug : pystr) (d : nat * BlogPost.t) : Prop :=
  BlogPost.slug d.2 = Some slug.

#[global] Instance by_slug_dec slug d : Decision (by_slug slug d) :=
  decide (BlogPost.slug d.2 = Some slug).

(** The monad of the blog routes: state over [Site], with [HTTPException];
    [None] is a [while] loop that has not finished within its fuel. *)
Definition SM (A : Type) : Type := Site -> option (result A * Site).

Definition sret {A} (a : A) : SM A := fun s => Some (Return a, s).
Definition sraise {A} (e : HTTPException) : SM A := fun s => Some (Raise e, s).
Definition out_of_fuel {A} : SM A := fun _ => None.
Definition sbind {A B} (m : SM A) (k : A -> SM B) : SM B :=
  fun s => match m s with
           | Some (Return a, s') => k a s'
           | Some (Raise e, s') => Some (Raise e, s')
           | None => None
           end.

(** A computation of the auth monad, run on the auth part of the site. *)
Definition lift_auth {A} (m : M A) : SM A :=
  fun s => let r := m (auth s) in Some (r.1, mkSite r.2 (blogposts s)).

Declare Scope site_scope.
Delimit Scope site_scope with site.
Notation "x <- m ;; k" := (sbind m (fun x => k))
  (at level 100, m at next level, right associativity) : site_scope.
Notation "m ;;; k" := (sbind m (fun _ => k))
  (at level 100, right associativity) : site_scope.

(** [db["blogpost"].find_one(q)] and [db["blogpost"].insert_one(doc)]. *)
Definition blog_find_one (q : nat * BlogPost.t -> Prop) `{!forall d, Decision (q d)} :
    SM (option (nat * BlogPost.t)) :=
  fun s => Some (Return (coll_find_one q (blogposts s)), s).

Definition blog_insert_one (doc : BlogPost.t) : SM unit :=
  fun s =>
    let w := auth s in
    Some (Return tt,
          mkSite (mkWorld (users w) (reset_tokens w) (S (next_oid w))
                          (clock_reads w) (entropy_reads w))
                 (blogposts s ++ [(next_oid w, doc)])).

Module MainBlog.
Section Server.
Variable clock : nat -> Z.
(** [str.lower] and [str] of an [ObjectId]. *)
Variable lower : pystr -> pystr.
Variable str_of_oid : nat -> pystr.

Local Open Scope site_scope.

Definition utcnow : SM Z := lift_auth (Main.utcnow clock).

Definition get_blog_post (slug : pystr) : SM BlogPostOut.t :=
  post <- blog_find_one (by_slug slug) ;;
  match post with
  | None => sraise (mkHTTPException 404 "Post not found")
  | Some post =>
      sret {| BlogPostOut.id := str_of_oid post.1;
              BlogPostOut.title := Some (BlogPost.title post.2);
              BlogPostOut.content := Some (BlogPost.content post.2);
              BlogPostOut.image_url := BlogPost.image_url post.2;
              BlogPostOut.author := BlogPost.author post.2;
              BlogPostOut.published_at := BlogPost.published_at post.2;
              BlogPostOut.slug := BlogPost.slug post.2 |}
  end.

(** [title.lower().strip().replace(" ", "-").replace("/", "-")[:60]] *)
Definition base_slug_of (title : pystr) : pystr :=
  take 60 (PyStr.replace PyStr.slash PyStr.hyphen
             (PyStr.replace PyStr.space PyStr.hyphen (PyStr.strip (lower title)))).

(** [while db["blogpost"].find_one({"slug": slug}): i += 1; slug = f"{base_slug}-{i}"],
    at most [fuel] tests of the condition. *)
Fixpoint while_slug_taken (fuel : nat) (base_slug : pystr) (i : nat) (slug : pystr) :
    SM pystr :=
  match fuel with
  | O => out_of_fuel
  | S fuel' =>
      found <- blog_find_one (by_slug slug) ;;
      if found is Some _ then
        let i := S i in
        while_slug_taken fuel' base_slug i (base_slug ++ [PyStr.hyphen] ++ PyStr.of_nat i)
      else sret slug
  end.

(** [payload.author or "Team"] *)
Definition author_or_team (author : option pystr) : pystr :=
  match author with
  | Some (c :: rest) => c :: rest
  | _ => PyStr.lit "Team"
  end.

Definition create_blog_post (fuel : nat) (payload : BlogPostCreate.t) : SM BlogCreated.t :=
  let base_slug := base_slug_of (BlogPostCreate.title payload) in
  slug <- while_slug_taken fuel base_slug 1 base_slug ;;
  published <- utcnow ;;
  created <- utcnow ;;
  updated <- utcnow ;;
  blog_insert_one
    {| BlogPost.title := BlogPostCreate.title payload;
       BlogPost.excerpt := BlogPostCreate.excerpt payload;
       BlogPost.content := BlogPostCreate.content payload;
       BlogPost.image_url := BlogPostCreate.image_url payload;
       BlogPost.author := Some (author_or_team (BlogPostCreate.author payload));
       BlogPost.published_at := Some published;
       BlogPost.slug := Some slug;
       BlogPost.created_at := Some created;
       BlogPost.updated_at := Some updated |} ;;;
  sret {| BlogCreated.ok := true; BlogCreated.slug := slug |}.

(** The same payload posted [k] times in a row, each loop with fuel for one
    test more than there are posts. *)
Fixpoint create_repeatedly (k : nat) (payload : BlogPostCreate.t) (s : Site) : option Site :=
  match k with
  | O => Some s
  | S k' =>
      match create_blog_post (S (length (blogposts s))) payload s with
      | Some (_, s') => create_repeatedly k' payload s'
      | None => None
      end
  end.
End Server.
End MainBlog.

(** The slugs the loop of [create_blog_post] tries, in order: the base
    slug, then [base-2], [base-3], ... *)
Definition slug_candidate (base_slug : pystr) (t : nat) : pystr :=
  match t with
  | O => base_slug
  | S _ => base_slug ++ [PyStr.hyphen] ++ PyStr.of_nat (S t)
  end.

(** The slugs present in the blog, in insertion order. *)
Definition post_slugs (s : Site) : list pystr := omap (BlogPost.slug ∘ snd) (blogposts s).

(** ASCII lower-casing, standing for [str.lower] on ASCII titles. *)
Definition ascii_lower (s : pystr) : pystr :=
  map (fun c => if ((65 <=? c) && (c <=? 90))%N then (c + 32)%N else c) s.

(** An [_id] rendered in decimal, standing for [str(ObjectId)]. *)
Definition demo_str_of_oid (i : nat) : pystr := PyStr.of_nat i.

Definition hello_post : BlogPostCreate.t :=
  BlogPostCreate.mk (PyStr.lit "  Hello World/2026 ") None (PyStr.lit "text") None
    (Some []).

(** The site [create_blog_post] leaves when its loop settles on [slug]:
    three clock reads, one ObjectId, one post appended. *)
Definition posted (clock : nat -> Z) (payload : BlogPostCreate.t) (slug : pystr)
    (s : Site) : Site :=
  let w := auth s in
  mkSite
    (mkWorld (users w) (reset_tokens w) (S (next_oid w)) (3 + clock_reads w)
             (entropy_reads w))
    (blogposts s
     ++ [(next_oid w,
          BlogPost.mk (BlogPostCreate.title payload) (Some slug)
            (BlogPostCreate.excerpt payload) (BlogPostCreate.content payload)
            (BlogPostCreate.image_url payload)
            (Some (MainBlog.author_or_team (BlogPostCreate.author payload)))
            (Some (clock (clock_reads w))) (Some (clock (1 + clock_reads w)))
            (Some (clock (2 + clock_reads w))))]).

(** ** What identifies a stored record

    The fields of a User and of a PasswordResetToken that no route ever
    writes after the insert. *)
Definition user_ident (d : nat * User.t) : nat * string * option string * Z :=
  (d.1, User.email d.2, User.name d.2, User.created_at d.2).

Definition token_ident (d : nat * PasswordResetToken.t) : nat * string * string * Z * Z :=
  (d.1, PasswordResetToken.user_email d.2, PasswordResetToken.token d.2,
   PasswordResetToken.expires_at d.2, PasswordResetToken.created_at d.2).

Definition user_emails (w : World) : list string := User.email ∘ snd <$> users w.

(** Further stores and processes for the examples: the blog after one
    "Hello World" post, and after two; the scenario after a second request_reset; a store
    whose only token is used, with an entropy source stuck at zero. *)
Definition hello_site : Site :=
  default empty_site
    (MainBlog.create_repeatedly scenario_clock ascii_lower 1 hello_post empty_site).

Definition hello_twice_site : Site :=
  default empty_site
    (MainBlog.create_repeatedly scenario_clock ascii_lower 2 hello_post empty_site).

Definition scenario_issued_twice : World :=
  (scenario_route (Main.PostForgot (PasswordResetRequest.mk "a@x.com")) scenario_issued).2.

Definition scenario_second_token : string := "0123456789ab4def8123456789abcdf0".

Definition stuck_urandom (n : nat) : Z := 0%Z.

Definition redeemed_world : World :=
  mkWorld
    [(0%nat, User.mk "a@x.com" None (Main.hash_password ∅ "p2")
               (scenario_clock 0) (scenario_clock 4))]
    [(1%nat, PasswordResetToken.mk "a@x.com" scenario_token
               (scenario_clock 2 + Datetime.hours 1) true
               (scenario_clock 2) (scenario_clock 5))]
    2 6 1.

(** The scenario of the specification with a second account, "b@x.com",
    registered before the reset token for "a@x.com" is issued. *)
Definition two_accounts_issued : World :=
  Main.serve ∅ scenario_clock scenario_urandom
    [Main.PostSignup (SignupRequest.mk "a@x.com" "p1" None);
     Main.PostSignup (SignupRequest.mk "b@x.com" "q1" None);
     Main.PostForgot (PasswordResetRequest.mk "a@x.com")]
    empty_world.

(** * Properties *)

(** ** Test vectors for the library functions of the embedding *)

Example sha256_empty :
  SHA256.hexdigest ""
  = "e3b0c44298fc1c149afbf4c8996fb92427ae41e4649b934ca495991b7852b855".
Proof. vm_compute. reflexivity. Qed.

Example sha256_abc :
  SHA256.hexdigest "abc"
  = "ba7816bf8f01cfea414140de5dae2223b00361a396177a9cb410ff61f20015ad".
Proof. vm_compute. reflexivity. Qed.

Example sha256_two_blocks :
  SHA256.hexdigest "abcdbcdecdefdefgefghfghighijhijkijkljklmklmnlmnomnopnopq"
  = "248d6a61d20638b8e5c026930c3e6039a33ce45964ff2167f6ecedd419db06c1".
Proof. vm_compute. reflexivity. Qed.

Example sha256_padding_boundaries :
  SHA256.hexdigest (a_string 55)
  = "9f4390f8d30c2dd92ec9f095b65e2b9ae9b0a925a5258e241c9f1e910f734318"
  /\ SHA256.hexdigest (a_string 56)
     = "b35439a4ac6f0948b6d6f9e3c6af0f5f590ce20f1bde7090ef7970686ec6738a"
  /\ SHA256.hexdigest (a_string 64)
     = "ffe054fe7ae0cb6dc65c3af9b61d5209f439851db43d0ba5997337df154668eb"
  /\ SHA256.hexdigest (a_string 119)
     = "31eba51c313a5c08226adf18d4a359cfdfd8d2e816b13f4af952f7ea6584dcfb"
  /\ SHA256.hexdigest (a_string 120)
     = "2f3d335432c70b580af0e8e1b3674a7c020d683aa5f73aaaedfdc55af904c21c".
Proof. vm_compute. repeat split. Qed.

Example hash_password_default_salt :
  Main.hash_password ∅ "p1"
  = "e1bdc9fdb29461fa87dfc3816c3d258bc21857ae6ac2844807f795f38b9df6e7"
  /\ Main.hash_password ∅ "p2"
     = "dd4ee6b1d35cecec30c8e0def72332269c67544d4f3ed8a8da55112a84ef1883"
  /\ Main.hash_password ∅ "wrong"
     = "7e3c112595a74f6100d903a4ad497d4c2522ee997000c0957f04004366932e56".
Proof. vm_compute. repeat split. Qed.

Example hash_password_env_salt :
  Main.hash_password {["APP_SALT" := "ab"]} "c" = SHA256.hexdigest "abc".
Proof. vm_compute. reflexivity. Qed.

Example datetime_str_vectors :
  Datetime.str 62135596800000000 = "1970-01-01 00:00:00"
  /\ Datetime.str 63929382120123456 = "2026-11-04 09:42:00.123456"
  /\ Datetime.str 63087465599000000 = "2000-02-29 23:59:59"
  /\ Datetime.str 66243139200000000 = "2100-03-01 00:00:00"
  /\ Datetime.str 0 = "0001-01-01 00:00:00"
  /\ Datetime.str 315537897599999999 = "9999-12-31 23:59:59.999999"
  /\ Datetime.str 63871243200000005 = "2024-12-31 12:00:00.000005"
  /\ Datetime.str 63839577600000000 = "2023-12-31 00:00:00"
  /\ Datetime.str 75736598400000000 = "2400-12-31 00:00:00"
  /\ Datetime.str 59958057601000000 = "1900-12-31 00:00:01".
Proof. vm_compute. repeat split. Qed.

Example uuid4_hex_vectors :
  UUID.uuid4_hex 0 = "00000000000040008000000000000000"
  /\ UUID.uuid4_hex (2 ^ 128 - 1) = "ffffffffffff4fffbfffffffffffffff"
  /\ UUID.uuid4_hex 1512366075204170929049582354406559215
     = "0123456789ab4def8123456789abcdef".
Proof. vm_compute. repeat split. Qed.

(** ** Digits and digests *)










(** The store never moves a datetime forward, and keeps whole milliseconds
    as they are. *)
Lemma as_stored_le d : (Datetime.as_stored d <= d)%Z.
Proof. unfold Datetime.as_stored. pose proof (Z.mod_pos_bound d 1000). lia. Qed.

Lemma as_stored_millis d : (d mod 1000 = 0)%Z -> Datetime.as_stored d = d.
Proof. unfold Datetime.as_stored. lia. Qed.

Lemma a_string_length n : String.length (a_string n) = n.
Proof. induction n as [|n IH]; simpl; [done|]. by rewrite IH. Qed.

Lemma a_string_inj i j : a_string i = a_string j -> i = j.
Proof. intros H. by rewrite <- (a_string_length i), H, a_string_length. Qed.

Module SHA256Facts.
Import SHA256.
Local Open Scope Z_scope.

Lemma wrap_is_word x : is_word (wrap x).
Proof. unfold is_word, wrap. apply Z.mod_pos_bound. lia. Qed.

Lemma compress_words h block : words (compress h block).
Proof.
  unfold compress. generalize (fold_left round (combine K (extend 48 block)) h).
  intros s. unfold words, add32. cbn [ra rb rc rd re rf rg rh].
  repeat split; apply wrap_is_word.
Qed.

Lemma H0_words : words H0.
Proof. unfold words, is_word, H0. cbn [ra rb rc rd re rf rg rh]. lia. Qed.

Lemma blocks_words n ws h : words h -> words (blocks n ws h).
Proof.
  revert ws h. induction n as [|n IH]; intros ws h Hh; simpl; [done|].
  apply IH, compress_words.
Qed.

Lemma digest_words s : words (digest s).
Proof. apply blocks_words, H0_words. Qed.



Lemma int_of_regs_bound h : words h -> 0 <= int_of_regs h < 2 ^ 256.
Proof.
  unfold words, is_word, int_of_regs.
  change (2 ^ 32) with 4294967296.
  change (2 ^ 256) with
    (4294967296 * 4294967296 * 4294967296 * 4294967296
     * 4294967296 * 4294967296 * 4294967296 * 4294967296).
  intros (Ha & Hb & Hc & Hd & He & Hf & Hg & Hh). lia.
Qed.

Lemma split_low_word x b x' b' :
  is_word b -> is_word b' -> x * 2 ^ 32 + b = x' * 2 ^ 32 + b' -> x = x' /\ b = b'.
Proof. unfold is_word. change (2 ^ 32) with 4294967296. lia. Qed.

Lemma int_of_regs_inj h h' :
  words h -> words h' -> int_of_regs h = int_of_regs h' -> h = h'.
Proof.
  destruct h as [a b c d e f g i], h' as [a' b' c' d' e' f' g' i'].
  unfold words, int_of_regs. cbn [ra rb rc rd re rf rg rh].
  intros (Ha & Hb & Hc & Hd & He & Hf & Hg & Hh)
         (Ha' & Hb' & Hc' & Hd' & He' & Hf' & Hg' & Hh') Heq.
  apply split_low_word in Heq as [Heq ->]; [|done..].
  apply split_low_word in Heq as [Heq ->]; [|done..].
  apply split_low_word in Heq as [Heq ->]; [|done..].
  apply split_low_word in Heq as [Heq ->]; [|done..].
  apply split_low_word in Heq as [Heq ->]; [|done..].
  apply split_low_word in Heq as [Heq ->]; [|done..].
  apply split_low_word in Heq as [-> ->]; [|done..].
  reflexivity.
Qed.
End SHA256Facts.

(** No map from the naturals into [0, B) is injective. *)
Lemma no_injection_into_bounded (B : nat) (g : nat -> nat) :
  (forall n, (g n < B)%nat) -> ~ (forall i j, g i = g j -> i = j).
Proof.
  intros Hb Hinj.
  assert (NoDup (g <$> seq 0 (S B))) as Hnd.
  { apply NoDup_fmap_2_strong; [|apply NoDup_seq]. intros i j _ _. apply Hinj. }
  assert (g <$> seq 0 (S B) ⊆+ seq 0 B) as Hsub.
  { apply NoDup_submseteq; [done|].
    intros x (y & -> & _)%list_elem_of_fmap. apply elem_of_seq.
    specialize (Hb y). lia. }
  apply submseteq_length in Hsub. rewrite length_fmap, !length_seq in Hsub. lia.
Qed.

(** Whatever the salt, two different secrets share a digest: there are
    only [2 ^ 256] digests and more secrets than that.  Different digests
    for different secrets can therefore be had on given inputs only, not
    on all strings. *)
Lemma hash_password_collides (environ : gmap string string) :
  ~ (forall x y : string, x <> y ->
       Main.hash_password environ x <> Main.hash_password environ y).
Proof.
  intros Hinj.
  set (salt := Main.getenv environ "APP_SALT" "static_salt_change_me").
  set (g := fun n : nat =>
              Z.to_nat (SHA256.int_of_regs (SHA256.digest (salt ++ a_string n)))).
  apply (no_injection_into_bounded (Z.to_nat (2 ^ 256)) g).
  - intros n. subst g. cbv beta.
    pose proof (SHA256Facts.int_of_regs_bound _ (SHA256Facts.digest_words (salt ++ a_string n)))
      as [H0 H1].
    apply Z2Nat.inj_lt; [done|apply Z.pow_nonneg; lia|done].
  - intros i j Hg. subst g. cbv beta in Hg.
    apply Z2Nat.inj in Hg;
      [|apply SHA256Facts.int_of_regs_bound, SHA256Facts.digest_words..].
    apply SHA256Facts.int_of_regs_inj in Hg; [|apply SHA256Facts.digest_words..].
    destruct (decide (a_string i = a_string j)) as [He|Hne]; [by apply a_string_inj|].
    destruct (Hinj _ _ Hne). unfold Main.hash_password, SHA256.hexdigest. fold salt.
    by rewrite Hg.
Qed.

(** ** The collection operations *)

Section Collections.
Context {A : Type} (q : ObjectId * A -> Prop) {qdec : forall d, Decision (q d)}.

Lemma list_find_first_match (c : collection A) j d :
  list_find q c = Some (j, d) <-> first_match q c j d.
Proof. exact (list_find_Some q c j d). Qed.

Lemma coll_find_one_Some (c : collection A) d :
  coll_find_one q c = Some d <-> exists j, first_match q c j d.
Proof.
  unfold coll_find_one. split.
  - destruct (list_find q c) as [[j d']|] eqn:E; simpl; [|discriminate].
    intros [= <-]. exists j. by apply list_find_first_match.
  - intros [j Hj]. apply list_find_first_match in Hj. by rewrite Hj.
Qed.

Lemma coll_find_one_None (c : collection A) :
  coll_find_one q c = None <-> no_match q c.
Proof.
  unfold coll_find_one, no_match. rewrite fmap_None, list_find_None, Forall_forall.
  reflexivity.
Qed.

Lemma coll_find_one_elem (c : collection A) d :
  coll_find_one q c = Some d -> d ∈ c /\ q d.
Proof.
  intros [j (Hj & Hq & _)]%coll_find_one_Some. split; [|done].
  by eapply list_elem_of_lookup_2.
Qed.

Lemma coll_find_one_is_Some (c : collection A) d :
  d ∈ c -> q d -> is_Some (coll_find_one q c).
Proof.
  intros Hd Hq. destruct (coll_find_one q c) eqn:E; [by eexists|].
  apply coll_find_one_None in E. by destruct (E d Hd).
Qed.

Lemma coll_update_one_none set (c : collection A) :
  no_match q c -> coll_update_one q set c = c.
Proof.
  intros H%coll_find_one_None. unfold coll_update_one, coll_find_one in *.
  by destruct (list_find q c).
Qed.

Lemma coll_update_one_first set (c : collection A) j d :
  first_match q c j d -> coll_update_one q set c = <[j := (d.1, set d.2)]> c.
Proof.
  intros H%list_find_first_match. unfold coll_update_one. by rewrite H.
Qed.

Lemma first_match_unique (c : collection A) j j' d d' :
  first_match q c j d -> first_match q c j' d' -> j = j' /\ d = d'.
Proof.
  intros H%list_find_first_match H'%list_find_first_match.
  rewrite H in H'. by injection H'.
Qed.
End Collections.

(** With unique [_id]s, the filter [{"_id": d["_id"]}] selects [d] itself. *)
Lemma first_match_by_id {A} (c : collection A) j d :
  NoDup c.*1 -> c !! j = Some d -> first_match (by_id d.1) c j d.
Proof.
  intros Hnd Hj. split; [done|]. split; [done|].
  intros i d' Hi Hlt Hid. unfold by_id in Hid.
  assert (i = j); [|lia].
  eapply NoDup_lookup; [exact Hnd| |].
  - rewrite list_lookup_fmap, Hi. simpl. by rewrite Hid.
  - by rewrite list_lookup_fmap, Hj.
Qed.

Section CollectionIds.
Context {A : Type} (q : ObjectId * A -> Prop) {qdec : forall d, Decision (q d)}.

Lemma coll_update_one_ids set (c : collection A) :
  (coll_update_one q set c).*1 = c.*1.
Proof.
  unfold coll_update_one.
  destruct (list_find q c) as [[j d]|] eqn:E; [|done].
  apply list_find_first_match in E as (Hj & _).
  rewrite list_fmap_insert. simpl. apply list_insert_id.
  by rewrite list_lookup_fmap, Hj.
Qed.

Lemma coll_update_one_length set (c : collection A) :
  length (coll_update_one q set c) = length c.
Proof.
  unfold coll_update_one.
  destruct (list_find q c) as [[j d]|]; [|done]. apply length_insert.
Qed.

Lemma ids_ok_update n set (c : collection A) :
  ids_ok n c -> ids_ok n (coll_update_one q set c).
Proof.
  intros [Hnd Hlt]. split.
  - by rewrite coll_update_one_ids.
  - apply Forall_forall. intros d' Hd'.
    assert (d'.1 ∈ c.*1) as Hin.
    { rewrite <- (coll_update_one_ids set c). apply list_elem_of_fmap. by exists d'. }
    apply list_elem_of_fmap in Hin as (d & Heq & Hd).
    rewrite Forall_forall in Hlt. rewrite Heq. by apply Hlt.
Qed.

Lemma coll_update_one_elem_inv set (c : collection A) d' :
  d' ∈ coll_update_one q set c ->
  d' ∈ c \/ exists d, d ∈ c /\ q d /\ d' = (d.1, set d.2).
Proof.
  unfold coll_update_one.
  destruct (list_find q c) as [[j d]|] eqn:E; [|by left].
  apply list_find_first_match in E as (Hj & Hq & _).
  intros [i Hi]%list_elem_of_lookup.
  apply list_lookup_insert_Some in Hi as [(_ & <- & _)|(_ & Hi)].
  - right. exists d. split; [by eapply list_elem_of_lookup_2|done].
  - left. by eapply list_elem_of_lookup_2.
Qed.

Lemma coll_update_one_elem set (c : collection A) d :
  d ∈ c ->
  d ∈ coll_update_one q set c \/ (q d /\ (d.1, set d.2) ∈ coll_update_one q set c).
Proof.
  unfold coll_update_one.
  destruct (list_find q c) as [[j d0]|] eqn:E; [|by left].
  apply list_find_first_match in E as (Hj & Hq & _).
  intros [i Hi]%list_elem_of_lookup.
  destruct (decide (j = i)) as [->|Hne].
  - right. rewrite Hj in Hi. injection Hi as ->. split; [done|].
    apply list_elem_of_insert. by eapply lookup_lt_Some.
  - left. eapply list_elem_of_lookup_2. by rewrite list_lookup_insert_ne.
Qed.
End CollectionIds.

Lemma ids_ok_weaken {A} n (c : collection A) : ids_ok n c -> ids_ok (S n) c.
Proof.
  intros [Hnd Hlt]. split; [done|].
  eapply Forall_impl; [exact Hlt|]. simpl. lia.
Qed.

Lemma ids_ok_insert {A} n (c : collection A) (x : A) :
  ids_ok n c -> ids_ok (S n) (c ++ [(n, x)]).
Proof.
  intros [Hnd Hlt]. split.
  - rewrite fmap_app. simpl. apply NoDup_app. split; [done|]. split.
    + intros i Hi ->%list_elem_of_singleton.
      apply list_elem_of_fmap in Hi as (d & Heq & Hd).
      rewrite Forall_forall in Hlt. specialize (Hlt d Hd). simpl in Heq, Hlt. lia.
    + apply NoDup_singleton.
  - apply Forall_app. split.
    + eapply Forall_impl; [exact Hlt|]. simpl. lia.
    + apply Forall_singleton. simpl. lia.
Qed.

Section CollectionEdits.
Context {A : Type} (q : nat * A -> Prop).

Lemma first_match_snoc (c : list (nat * A)) x :
  no_match q c -> q x -> first_match q (c ++ [x]) (length c) x.
Proof.
  intros Hno Hq. split; [|split; [done|]].
  - by rewrite lookup_app_r, Nat.sub_diag.
  - intros i d Hi Hlt. rewrite lookup_app_l in Hi by done.
    apply Hno. by eapply list_elem_of_lookup_2.
Qed.

Lemma no_match_snoc (c : list (nat * A)) x :
  no_match q c -> ~ q x -> no_match q (c ++ [x]).
Proof.
  intros Hno Hq d [Hd| ->%list_elem_of_singleton]%elem_of_app; [by apply Hno|done].
Qed.

Lemma first_match_insert (c : list (nat * A)) i d d' :
  first_match q c i d -> q d' -> first_match q (<[i := d']> c) i d'.
Proof.
  intros (Hi & _ & Hbefore) Hq. split; [|split; [done|]].
  - apply list_lookup_insert_eq. by eapply lookup_lt_Some.
  - intros j x Hj Hlt. rewrite list_lookup_insert_ne in Hj by lia.
    by eapply Hbefore.
Qed.

Lemma insert_snoc (c : list (nat * A)) x y : <[length c := y]> (c ++ [x]) = c ++ [y].
Proof. rewrite insert_app_r_alt by done. by rewrite Nat.sub_diag. Qed.
End CollectionEdits.

(** ** What each route computes, case by case *)

Section Routes.
Variable environ : gmap string string.
Variable clock : nat -> Z.
Variable urandom16 : nat -> Z.

Local Abbreviation hash_password := (Main.hash_password environ).
Local Abbreviation signup := (Main.signup environ clock).
Local Abbreviation login := (Main.login environ clock).
Local Abbreviation password_reset_request := (Main.password_reset_request clock urandom16).
Local Abbreviation password_reset_confirm := (Main.password_reset_confirm environ clock).
Local Abbreviation route := (Main.route environ clock urandom16).
Local Abbreviation serve := (Main.serve environ clock urandom16).

Lemma signup_run_duplicate p w d :
  coll_find_one (by_email (SignupRequest.email p)) (users w) = Some d ->
  signup p w = (Raise DuplicateEmail, w).
Proof.
  intros Hf. unfold Main.signup, bind, find_one. simpl. by rewrite Hf.
Qed.

Lemma signup_run_new p w :
  coll_find_one (by_email (SignupRequest.email p)) (users w) = None ->
  signup p w =
    (Return signup_ok_body,
     mkWorld (users w ++ [(next_oid w,
                User.mk (SignupRequest.email p) (SignupRequest.name p)
                        (hash_password (SignupRequest.password p))
                        (clock (clock_reads w)) (clock (S (clock_reads w))))])
             (reset_tokens w) (S (next_oid w)) (S (S (clock_reads w))) (entropy_reads w)).
Proof.
  intros Hf. unfold Main.signup, bind, find_one. simpl. by rewrite Hf.
Qed.

Lemma login_run_unknown p w :
  coll_find_one (by_email (LoginRequest.email p)) (users w) = None ->
  login p w = (Raise InvalidCredentials, w).
Proof.
  intros Hf. unfold Main.login, bind, find_one. simpl. by rewrite Hf.
Qed.

Lemma login_run_wrong p w u :
  coll_find_one (by_email (LoginRequest.email p)) (users w) = Some u ->
  User.hashed_password u.2 <> hash_password (LoginRequest.password p) ->
  login p w = (Raise InvalidCredentials, w).
Proof.
  intros Hf Hne. unfold Main.login, bind, find_one. simpl. rewrite Hf.
  by rewrite bool_decide_eq_true_2.
Qed.

Lemma login_run_ok p w u :
  coll_find_one (by_email (LoginRequest.email p)) (users w) = Some u ->
  User.hashed_password u.2 = hash_password (LoginRequest.password p) ->
  login p w =
    (Return (login_ok_body
               (SHA256.hexdigest (LoginRequest.email p ++ ":"
                                  ++ Datetime.str (clock (clock_reads w))))
               (User.email u.2) (User.name u.2)),
     ticked 1 w).
Proof.
  intros Hf He. unfold Main.login, bind, find_one. simpl. rewrite Hf.
  rewrite bool_decide_eq_false_2; [done|]. by intros [].
Qed.

Lemma forgot_run_absent p w :
  coll_find_one (by_email (PasswordResetRequest.email p)) (users w) = None ->
  password_reset_request p w = (Return forgot_absent_body, w).
Proof.
  intros Hf. unfold Main.password_reset_request, bind, find_one. simpl. by rewrite Hf.
Qed.

Lemma forgot_run_present p w u :
  coll_find_one (by_email (PasswordResetRequest.email p)) (users w) = Some u ->
  password_reset_request p w =
    (Return (forgot_present_body (UUID.uuid4_hex (urandom16 (entropy_reads w)))),
     mkWorld (users w)
             (reset_tokens w ++ [(next_oid w,
                PasswordResetToken.mk (PasswordResetRequest.email p)
                  (UUID.uuid4_hex (urandom16 (entropy_reads w)))
                  (clock (clock_reads w) + Datetime.hours 1)%Z false
                  (clock (S (clock_reads w))) (clock (S (S (clock_reads w)))))])
             (S (next_oid w)) (S (S (S (clock_reads w)))) (S (entropy_reads w))).
Proof.
  intros Hf. unfold Main.password_reset_request, bind, find_one. simpl. by rewrite Hf.
Qed.

Lemma confirm_run_invalid p w :
  coll_find_one (by_unused_token (PasswordResetConfirm.token p)) (reset_tokens w) = None ->
  password_reset_confirm p w = (Raise InvalidToken, w).
Proof.
  intros Hf. unfold Main.password_reset_confirm, bind, find_one. simpl. by rewrite Hf.
Qed.

Lemma confirm_run_expired p w rec :
  coll_find_one (by_unused_token (PasswordResetConfirm.token p)) (reset_tokens w) = Some rec ->
  (PasswordResetToken.expires_at rec.2 < clock (clock_reads w))%Z ->
  password_reset_confirm p w = (Raise TokenExpired, ticked 1 w).
Proof.
  intros Hf Hlt. unfold Main.password_reset_confirm, bind, find_one. simpl. rewrite Hf.
  simpl. by rewrite bool_decide_eq_true_2.
Qed.

Lemma confirm_run_ok p w rec :
  coll_find_one (by_unused_token (PasswordResetConfirm.token p)) (reset_tokens w) = Some rec ->
  (clock (clock_reads w) <= PasswordResetToken.expires_at rec.2)%Z ->
  password_reset_confirm p w =
    (Return reset_ok_body,
     mkWorld
       (coll_update_one (by_email (PasswordResetToken.user_email rec.2))
          (User.set_password (hash_password (PasswordResetConfirm.new_password p))
                             (clock (S (clock_reads w))))
          (users w))
       (coll_update_one (by_id rec.1)
          (PasswordResetToken.set_used (clock (S (S (clock_reads w)))))
          (reset_tokens w))
       (next_oid w) (S (S (S (clock_reads w)))) (entropy_reads w)).
Proof.
  intros Hf Hle. unfold Main.password_reset_confirm, bind, find_one. simpl. rewrite Hf.
  simpl. rewrite bool_decide_eq_false_2; [done|lia].
Qed.

(** *** Invariants of the store along any session *)

Lemma store_ok_empty : store_ok empty_world.
Proof. repeat split; simpl; constructor. Qed.

Lemma store_ok_ticked n w : store_ok (ticked n w) <-> store_ok w.
Proof. reflexivity. Qed.

Lemma route_cases r w :
  (exists e, route r w = (Raise e, w) \/ route r w = (Raise e, ticked 1 w))
  \/ (exists b u,
        route r w = (Return b,
          mkWorld (users w ++ [(next_oid w, u)]) (reset_tokens w)
                  (S (next_oid w)) (S (S (clock_reads w))) (entropy_reads w)))
  \/ (exists b, route r w = (Return b, w) \/ route r w = (Return b, ticked 1 w))
  \/ (exists b t,
        PasswordResetToken.token t = UUID.uuid4_hex (urandom16 (entropy_reads w))
        /\ route r w = (Return b,
          mkWorld (users w) (reset_tokens w ++ [(next_oid w, t)])
                  (S (next_oid w)) (S (S (S (clock_reads w)))) (S (entropy_reads w))))
  \/ (exists b e hp t1 i t2,
        route r w = (Return b,
          mkWorld (coll_update_one (by_email e) (User.set_password hp t1) (users w))
                  (coll_update_one (by_id i) (PasswordResetToken.set_used t2) (reset_tokens w))
                  (next_oid w) (S (S (S (clock_reads w)))) (entropy_reads w))).
Proof.
  destruct r as [p|p|p|p]; simpl.
  - destruct (coll_find_one (by_email (SignupRequest.email p)) (users w)) eqn:E.
    + left. eexists. left. by eapply signup_run_duplicate.
    + right. left. do 2 eexists. by apply signup_run_new.
  - destruct (coll_find_one (by_email (LoginRequest.email p)) (users w)) as [u|] eqn:E.
    + destruct (decide (User.hashed_password u.2
                        = hash_password (LoginRequest.password p))) as [He|Hne].
      * right. right. left. eexists. right. by eapply login_run_ok.
      * left. eexists. left. by eapply login_run_wrong.
    + left. eexists. left. by apply login_run_unknown.
  - destruct (coll_find_one (by_email (PasswordResetRequest.email p)) (users w)) as [u|] eqn:E.
    + right. right. right. left. do 2 eexists. split; [|by eapply forgot_run_present].
      done.
    + right. right. left. eexists. left. by apply forgot_run_absent.
  - destruct (coll_find_one (by_unused_token (PasswordResetConfirm.token p))
                (reset_tokens w)) as [rec|] eqn:E.
    + destruct (decide (PasswordResetToken.expires_at rec.2 < clock (clock_reads w))%Z).
      * left. eexists. right. by eapply confirm_run_expired.
      * do 4 right. do 6 eexists. eapply confirm_run_ok; [done|lia].
    + left. eexists. left. by apply confirm_run_invalid.
Qed.

Lemma store_ok_route r w : store_ok w -> store_ok (route r w).2.
Proof.
  intros [Hu Ht].
  destruct (route_cases r w) as
    [(e & [->| ->])|[(b & u & ->)|[(b & [->| ->])|[(b & t & _ & ->)|(b & e & hp & t1 & i & t2 & ->)]]]];
    simpl; try done.
  - split; simpl; [by apply ids_ok_insert|by apply ids_ok_weaken].
  - split; simpl; [by apply ids_ok_weaken|by apply ids_ok_insert].
  - split; simpl; by apply ids_ok_update.
Qed.

Lemma store_ok_serve rs w : store_ok w -> store_ok (serve rs w).
Proof.
  revert w. induction rs as [|r rs IH]; intros w Hw; simpl; [done|].
  by apply IH, store_ok_route.
Qed.

Lemma issued_by_uuid4_route r w :
  issued_by_uuid4 urandom16 w -> issued_by_uuid4 urandom16 (route r w).2.
Proof.
  intros Hw.
  destruct (route_cases r w) as
    [(e & [->| ->])|[(b & u & ->)|[(b & [->| ->])|[(b & t & Ht & ->)|(b & e & hp & t1 & i & t2 & ->)]]]];
    simpl; try done.
  - intros d [Hd|Hd]%elem_of_app; simpl in *.
    + destruct (Hw d Hd) as (k & Hk & Hd'). exists k. split; [lia|done].
    + apply list_elem_of_singleton in Hd as ->. exists (entropy_reads w). split; [lia|done].
  - intros d [Hd|(d0 & Hd0 & _ & ->)]%coll_update_one_elem_inv; simpl in *.
    + by apply Hw.
    + by apply Hw.
Qed.

Lemma emails_persist_route r w d :
  d ∈ users w ->
  exists d', d' ∈ users (route r w).2 /\ User.email d'.2 = User.email d.2.
Proof.
  intros Hd.
  destruct (route_cases r w) as
    [(e & [->| ->])|[(b & u & ->)|[(b & [->| ->])|[(b & t & Ht & ->)|(b & e & hp & t1 & i & t2 & ->)]]]];
    simpl; try (by exists d).
  - exists d. split; [|done]. apply elem_of_app. by left.
  - destruct (coll_update_one_elem (by_email e) (User.set_password hp t1) _ _ Hd)
      as [Hin|[_ Hin]].
    + by exists d.
    + eexists. split; [exact Hin|done].
Qed.

Lemma emails_persist_serve rs w d :
  d ∈ users w ->
  exists d', d' ∈ users (serve rs w) /\ User.email d'.2 = User.email d.2.
Proof.
  revert w d. induction rs as [|r rs IH]; intros w d Hd; simpl; [by exists d|].
  destruct (emails_persist_route r w d Hd) as (d1 & Hd1 & He1).
  destruct (IH _ d1 Hd1) as (d2 & Hd2 & He2).
  exists d2. split; [done|congruence].
Qed.

(** *** password_reset_confirm *)

Lemma user_password_set_update e hp now us :
  user_password_set e hp now us (coll_update_one (by_email e) (User.set_password hp now) us).
Proof.
  destruct (coll_find_one (by_email e) us) as [u|] eqn:E.
  - apply coll_find_one_Some in E as [i Hi]. right. exists i, u. split; [done|].
    by rewrite (coll_update_one_first _ _ _ i u Hi).
  - apply coll_find_one_None in E. left. split; [done|].
    by apply coll_update_one_none.
Qed.

Lemma token_marked_used_update j rec now ts :
  NoDup ts.*1 -> ts !! j = Some rec ->
  token_marked_used j rec now ts
    (coll_update_one (by_id rec.1) (PasswordResetToken.set_used now) ts).
Proof.
  intros Hnd Hj. unfold token_marked_used.
  by rewrite (coll_update_one_first _ _ _ j rec (first_match_by_id ts j rec Hnd Hj)).
Qed.

Lemma user_password_set_functional e hp now us us1 us2 :
  user_password_set e hp now us us1 -> user_password_set e hp now us us2 -> us1 = us2.
Proof.
  intros [[Hno ->]|(i & u & Hi & ->)] [[Hno' ->]|(i' & u' & Hi' & ->)]; [done| | |].
  - destruct Hi' as (Hl & Hq & _). destruct (Hno u'); [|done].
    by eapply list_elem_of_lookup_2.
  - destruct Hi as (Hl & Hq & _). destruct (Hno' u); [|done].
    by eapply list_elem_of_lookup_2.
  - by destruct (first_match_unique _ _ _ _ _ _ Hi Hi') as [-> ->].
Qed.

(** The state machine leaves no choice: it has one outcome per call. *)
Lemma confirm_reset_spec_functional p w r r' :
  confirm_reset_spec environ clock p w r -> confirm_reset_spec environ clock p w r' ->
  r = r'.
Proof.
  assert (forall j rec,
            first_match (by_unused_token (PasswordResetConfirm.token p))
              (reset_tokens w) j rec ->
            no_match (by_unused_token (PasswordResetConfirm.token p)) (reset_tokens w) ->
            False) as Hexcl.
  { intros j rec (Hl & Hq & _) Hno. apply (Hno rec); [|done].
    by eapply list_elem_of_lookup_2. }
  intros [Hno|j rec Hj Hlt|j rec us ts Hj Hge Hus Hts]
         [Hno'|j' rec' Hj' Hlt'|j' rec' us' ts' Hj' Hge' Hus' Hts'];
    try done; try (by destruct (Hexcl _ _ Hj)); try (by destruct (Hexcl _ _ Hj')).
  - destruct (first_match_unique _ _ _ _ _ _ Hj Hj') as [-> ->]. by destruct Hge'.
  - destruct (first_match_unique _ _ _ _ _ _ Hj Hj') as [-> ->]. by destruct Hge.
  - destruct (first_match_unique _ _ _ _ _ _ Hj Hj') as [-> ->].
    rewrite (user_password_set_functional _ _ _ _ _ _ Hus Hus').
    unfold token_marked_used in *. by subst.
Qed.

(** C1. [password_reset_confirm] implements the three-step state machine
    of the specification: for every call on a store with unique [_id]s,
    its outcome is the one [confirm_reset_spec] prescribes -- InvalidToken
    (400) and nothing changed when no unused record carries the token
    string; TokenExpired (400) when the first such record has
    [expires_at < now]; otherwise the user matched by the record's
    [user_email] gets [hashed_password = hash(new_password)] and the
    clock's next reading as [updated_at], then the record gets
    [used = true] and the following reading as [updated_at], and the
    route returns ok. *)
Theorem password_reset_confirm_state_machine (p : PasswordResetConfirm.t) (w : World) :
  store_ok w ->
  confirm_reset_spec environ clock p w (password_reset_confirm p w).
Proof.
  intros [_ [Hnd _]].
  destruct (coll_find_one (by_unused_token (PasswordResetConfirm.token p))
              (reset_tokens w)) as [rec|] eqn:E.
  - pose proof E as [j Hj]%coll_find_one_Some.
    destruct (decide (PasswordResetToken.expires_at rec.2 < clock (clock_reads w))%Z)
      as [Hlt|Hge].
    + rewrite (confirm_run_expired p w rec E Hlt). by eapply reset_token_expired.
    + rewrite (confirm_run_ok p w rec E) by lia.
      eapply (reset_redeemed environ clock p w j rec); [done|done| |].
      * apply user_password_set_update.
      * apply token_marked_used_update; [done|]. by destruct Hj.
  - rewrite (confirm_run_invalid p w E). apply reset_invalid_token.
    apply coll_find_one_None in E. exact E.
Qed.

(** C10. A valid, unexpired, unused token whose [user_email] matches no
    User is still redeemed: the route returns ok and marks that record
    [used = true], and the User collection is left exactly as it was
    (nothing created, nothing modified) -- [user_email] is never checked
    against the users. *)
Theorem reset_with_unmatched_user_email
    (p : PasswordResetConfirm.t) (w : World) (j : nat)
    (rec : nat * PasswordResetToken.t) :
  store_ok w ->
  first_match (by_unused_token (PasswordResetConfirm.token p)) (reset_tokens w) j rec ->
  (clock (clock_reads w) <= PasswordResetToken.expires_at rec.2)%Z ->
  no_match (by_email (PasswordResetToken.user_email rec.2)) (users w) ->
  (password_reset_confirm p w).1 = Return reset_ok_body
  /\ users (password_reset_confirm p w).2 = users w
  /\ reset_tokens (password_reset_confirm p w).2
     = <[j := (rec.1, PasswordResetToken.set_used (clock (2 + clock_reads w)) rec.2)]>
         (reset_tokens w)
  /\ PasswordResetToken.used <$> (snd <$> reset_tokens (password_reset_confirm p w).2 !! j)
     = Some true.
Proof.
  intros [_ [Hnd _]] Hj Hle Hnone.
  assert (coll_find_one (by_unused_token (PasswordResetConfirm.token p)) (reset_tokens w)
          = Some rec) as E by (apply coll_find_one_Some; by exists j).
  rewrite (confirm_run_ok p w rec E Hle). simpl.
  rewrite (coll_update_one_none _ _ _ Hnone).
  destruct Hj as (Hj & _).
  rewrite (coll_update_one_first _ _ _ j rec (first_match_by_id _ j rec Hnd Hj)).
  repeat split.
  rewrite list_lookup_insert_eq by (by eapply lookup_lt_Some). done.
Qed.

(** C3 (as amended). A reset token is redeemable only while it is unused
    and [now <= expires_at]: whenever [password_reset_confirm] returns ok
    or changes the User collection, the record it found is unused and the
    clock read at the check is not past its [expires_at].  Whenever the
    record found has [expires_at < now], the route fails with TokenExpired
    (400), no password changes and the token collection is untouched, so
    the record stays [used = false]. *)
Theorem reset_token_redeemable_window (p : PasswordResetConfirm.t) (w : World) :
  let now := clock (clock_reads w) in
  let redeemable :=
    exists j rec,
      first_match (by_unused_token (PasswordResetConfirm.token p)) (reset_tokens w) j rec
      /\ PasswordResetToken.used rec.2 = false
      /\ (now <= PasswordResetToken.expires_at rec.2)%Z in
  ((exists b, (password_reset_confirm p w).1 = Return b) -> redeemable)
  /\ (users (password_reset_confirm p w).2 <> users w -> redeemable)
  /\ (forall j rec,
        first_match (by_unused_token (PasswordResetConfirm.token p)) (reset_tokens w) j rec ->
        (PasswordResetToken.expires_at rec.2 < now)%Z ->
        (password_reset_confirm p w).1 = Raise TokenExpired
        /\ users (password_reset_confirm p w).2 = users w
        /\ reset_tokens (password_reset_confirm p w).2 = reset_tokens w
        /\ reset_tokens (password_reset_confirm p w).2 !! j = Some rec
        /\ PasswordResetToken.used rec.2 = false).
Proof.
  intros now redeemable.
  assert ((exists b, (password_reset_confirm p w).1 = Return b)
          \/ users (password_reset_confirm p w).2 <> users w -> redeemable) as Hkey.
  { destruct (coll_find_one (by_unused_token (PasswordResetConfirm.token p))
                (reset_tokens w)) as [rec|] eqn:E.
    - pose proof E as [j Hj]%coll_find_one_Some.
      destruct (decide (PasswordResetToken.expires_at rec.2 < now)%Z) as [Hlt|Hge].
      + rewrite (confirm_run_expired p w rec E Hlt). simpl.
        intros [[b [=]]|Hne]; by destruct Hne.
      + intros _. exists j, rec. split; [done|]. split; [|lia].
        by destruct Hj as (_ & [_ Hu] & _).
    - rewrite (confirm_run_invalid p w E). simpl.
      intros [[b [=]]|Hne]; by destruct Hne. }
  split; [by intros H; apply Hkey; left|].
  split; [by intros H; apply Hkey; right|].
  intros j rec Hj Hlt.
  assert (coll_find_one (by_unused_token (PasswordResetConfirm.token p)) (reset_tokens w)
          = Some rec) as E by (apply coll_find_one_Some; by exists j).
  rewrite (confirm_run_expired p w rec E Hlt). simpl.
  destruct Hj as (Hj & [_ Hu] & _). done.
Qed.

(** *** password_reset_request *)


Lemma by_email_elem e (c : list (nat * User.t)) :
  (exists d, d ∈ c /\ User.email d.2 = e) -> is_Some (coll_find_one (by_email e) c).
Proof. intros (d & Hd & He). by eapply coll_find_one_is_Some. Qed.

Lemma fresh_token_unstored w :
  issued_by_uuid4 urandom16 w -> next_uuid_is_new urandom16 w ->
  forall d, d ∈ reset_tokens w ->
    PasswordResetToken.token d.2 <> UUID.uuid4_hex (urandom16 (entropy_reads w)).
Proof.
  intros Hissued Hnew d Hd. destruct (Hissued d Hd) as (k & Hk & ->). by apply Hnew.
Qed.

Lemma fresh_token_no_match w :
  issued_by_uuid4 urandom16 w -> next_uuid_is_new urandom16 w ->
  no_match (by_unused_token (UUID.uuid4_hex (urandom16 (entropy_reads w)))) (reset_tokens w).
Proof.
  intros Hissued Hnew d Hd [Ht _]. by eapply fresh_token_unstored.
Qed.

(** C8. For every email of an existing User, [password_reset_request]
    draws a fresh [uuid4] token -- one that no stored record carries, as
    long as every stored token came from an earlier [uuid4()] and the
    generator does not repeat itself --, appends one PasswordResetToken
    with [user_email] that email, [expires_at] the clock's reading plus
    one hour, and [used = false], leaves the users alone, and returns that
    same token as [preview_token]. *)
Theorem request_reset_issues_token (p : PasswordResetRequest.t) (w : World) :
  issued_by_uuid4 urandom16 w ->
  next_uuid_is_new urandom16 w ->
  (exists u, u ∈ users w /\ User.email u.2 = PasswordResetRequest.email p) ->
  let T := UUID.uuid4_hex (urandom16 (entropy_reads w)) in
  let r := password_reset_request p w in
  (forall d, d ∈ reset_tokens w -> PasswordResetToken.token d.2 <> T)
  /\ (exists created updated,
        reset_tokens r.2
        = reset_tokens w
          ++ [(next_oid w,
               PasswordResetToken.mk (PasswordResetRequest.email p) T
                 (clock (clock_reads w) + 3600 * 1000000)%Z false created updated)])
  /\ users r.2 = users w
  /\ r.1 = Return (forgot_present_body T)
  /\ json_get "preview_token" (http_body r.1) = Some (JStr T)
  /\ issued_by_uuid4 urandom16 r.2.
Proof.
  intros Hissued Hnew [u E]%by_email_elem T r.
  split; [by apply fresh_token_unstored|].
  assert (issued_by_uuid4 urandom16 r.2) as Hissued'
    by apply (issued_by_uuid4_route (Main.PostForgot p) w Hissued).
  subst r. rewrite (forgot_run_present p w u E) in *. simpl.
  split; [by do 2 eexists|]. done.
Qed.
(** *** login *)

(** C5. For every (email, password), [login] fails with
    InvalidCredentials (401) if and only if no User matches the email or
    the digest stored for the User found differs from [hash(password)];
    it fails in no other way, and the failure is the same in both cases:
    the same exception (status 401, detail "Invalid credentials"), hence
    the same status and body, whatever the request and the store. *)
Theorem login_invalid_credentials (p : LoginRequest.t) (w : World) :
  let user := coll_find_one (by_email (LoginRequest.email p)) (users w) in
  let unknown := no_match (by_email (LoginRequest.email p)) (users w) in
  let wrong :=
    exists u, user = Some u
              /\ User.hashed_password u.2 <> hash_password (LoginRequest.password p) in
  ((login p w).1 = Raise InvalidCredentials <-> unknown \/ wrong)
  /\ ((exists e, (login p w).1 = Raise e) <-> unknown \/ wrong)
  /\ (unknown \/ wrong -> login p w = (Raise InvalidCredentials, w))
  /\ (forall p' w',
        no_match (by_email (LoginRequest.email p')) (users w') -> wrong ->
        (login p' w').1 = (login p w).1
        /\ http_status (login p' w').1 = http_status (login p w).1
        /\ http_body (login p' w').1 = http_body (login p w).1)
  /\ http_status (Raise InvalidCredentials) = 401%Z
  /\ http_body (Raise InvalidCredentials) = JObj [("detail", JStr "Invalid credentials")].
Proof.
  intros user unknown wrong. subst user unknown wrong.
  assert (forall q v, no_match (by_email (LoginRequest.email q)) (users v) ->
                      login q v = (Raise InvalidCredentials, v)) as Hunknown.
  { intros q v Hno. apply login_run_unknown. apply coll_find_one_None. exact Hno. }
  destruct (coll_find_one (by_email (LoginRequest.email p)) (users w)) as [u|] eqn:E.
  - pose proof E as [Hu Hq]%coll_find_one_elem.
    assert (~ no_match (by_email (LoginRequest.email p)) (users w)) as Hn
      by (intros Hno; by apply (Hno u Hu)).
    destruct (decide (User.hashed_password u.2
                      = hash_password (LoginRequest.password p))) as [He|Hne].
    + assert (~ (no_match (by_email (LoginRequest.email p)) (users w)
                 \/ exists u0, Some u = Some u0
                      /\ User.hashed_password u0.2
                         <> hash_password (LoginRequest.password p))) as Hgood.
      { intros [Hno|(u' & [= <-] & Hne)]; [by destruct Hn|by destruct Hne]. }
      rewrite (login_run_ok p w u E He). simpl.
      split; [|split; [|split; [|split; [|split]]]].
      * split; [intros [=]|intros H; by destruct Hgood].
      * split; [intros [e [=]]|intros H; by destruct Hgood].
      * intros H. by destruct Hgood.
      * intros p' w' Hno Hw. destruct Hgood. by right.
      * done.
      * done.
    + assert (exists u0, Some u = Some u0
                /\ User.hashed_password u0.2
                   <> hash_password (LoginRequest.password p)) as Hwrong
        by (by exists u).
      rewrite (login_run_wrong p w u E Hne). simpl.
      split; [|split; [|split; [|split; [|split]]]].
      * split; [intros _; by right|done].
      * split; [intros _; by right|by eexists].
      * done.
      * intros p' w' Hno _. by rewrite (Hunknown p' w' Hno).
      * done.
      * done.
  - rewrite (login_run_unknown p w E). simpl.
    apply coll_find_one_None in E.
    split; [|split; [|split; [|split; [|split]]]].
    + split; [intros _; by left|done].
    + split; [intros _; by left|by eexists].
    + done.
    + intros p' w' Hno _. by rewrite (Hunknown p' w' Hno).
    + done.
    + done.
Qed.

(** *** signup *)

(** C6. For every (email, password, name?), [signup] fails with
    DuplicateEmail (400) and changes nothing if a User with exactly that
    email string exists; otherwise it answers ok and appends one User with
    that email and name, [hashed_password = hash(password)], and
    [created_at] and [updated_at] each set to the clock's reading at the
    moment it is evaluated (two successive [utcnow()] calls).  Either way
    the email is registered afterwards, and every later [signup] with the
    same email, after any session of requests, fails with
    DuplicateEmail. *)
Theorem signup_duplicate_or_insert (p : SignupRequest.t) (w : World) :
  let e := SignupRequest.email p in
  ((exists d, d ∈ users w /\ User.email d.2 = e) ->
     signup p w = (Raise DuplicateEmail, w))
  /\ ((forall d, d ∈ users w -> User.email d.2 <> e) ->
        (signup p w).1 = Return signup_ok_body
        /\ users (signup p w).2
           = users w ++ [(next_oid w,
                          User.mk e (SignupRequest.name p)
                            (hash_password (SignupRequest.password p))
                            (clock (clock_reads w)) (clock (1 + clock_reads w)))]
        /\ reset_tokens (signup p w).2 = reset_tokens w)
  /\ (forall rs p', SignupRequest.email p' = e ->
        signup p' (serve rs (signup p w).2)
        = (Raise DuplicateEmail, serve rs (signup p w).2))
  /\ http_status (Raise DuplicateEmail) = 400%Z.
Proof.
  intros e. subst e. split; [|split; [|split; [|done]]].
  - intros [d Hd]%by_email_elem. by eapply signup_run_duplicate.
  - intros Hno.
    assert (coll_find_one (by_email (SignupRequest.email p)) (users w) = None) as E
      by (apply coll_find_one_None; exact Hno).
    by rewrite (signup_run_new p w E).
  - intros rs p' He.
    assert (exists d, d ∈ users (signup p w).2
                      /\ User.email d.2 = SignupRequest.email p) as (d & Hd & Hde).
    { destruct (coll_find_one (by_email (SignupRequest.email p)) (users w))
        as [d|] eqn:E.
      - rewrite (signup_run_duplicate p w d E). simpl.
        apply coll_find_one_elem in E as [Hd Hq]. by exists d.
      - rewrite (signup_run_new p w E). simpl. eexists. split.
        + apply elem_of_app. right. by apply list_elem_of_singleton.
        + done. }
    destruct (emails_persist_serve rs _ d Hd) as (d' & Hd' & Hde').
    destruct (by_email_elem (SignupRequest.email p') (users (serve rs (signup p w).2)))
      as [d'' Hf]; [exists d'; split; [done|congruence]|].
    by eapply signup_run_duplicate.
Qed.

(** *** Issuing, redeeming, and logging in again *)

Lemma find_after_password_update e hp now (us : list (nat * User.t)) u :
  coll_find_one (by_email e) us = Some u ->
  coll_find_one (by_email e) (coll_update_one (by_email e) (User.set_password hp now) us)
  = Some (u.1, User.set_password hp now u.2).
Proof.
  intros [i Hi]%coll_find_one_Some.
  rewrite (coll_update_one_first _ _ _ i u Hi).
  apply coll_find_one_Some. exists i. apply (first_match_insert _ _ _ u); [done|].
  by destruct Hi as (_ & Hq & _).
Qed.

(** The token just issued for [e] is the record a confirm with that token
    finds; unless it has expired, the confirm resets the password of [e]
    and marks the record used. *)
Lemma redeem_issued_token e new_pw w :
  store_ok w -> issued_by_uuid4 urandom16 w -> next_uuid_is_new urandom16 w ->
  (exists u, u ∈ users w /\ User.email u.2 = e) ->
  let T := UUID.uuid4_hex (urandom16 (entropy_reads w)) in
  let issued := PasswordResetToken.mk e T (clock (clock_reads w) + Datetime.hours 1)%Z
                  false (clock (1 + clock_reads w)) (clock (2 + clock_reads w)) in
  let w1 := (password_reset_request (PasswordResetRequest.mk e) w).2 in
  password_reset_request (PasswordResetRequest.mk e) w
  = (Return (forgot_present_body T),
     mkWorld (users w) (reset_tokens w ++ [(next_oid w, issued)])
             (S (next_oid w)) (3 + clock_reads w) (S (entropy_reads w)))
  /\ coll_find_one (by_unused_token T) (reset_tokens w1) = Some (next_oid w, issued)
  /\ ((clock (3 + clock_reads w) <= clock (clock_reads w) + Datetime.hours 1)%Z ->
      password_reset_confirm (PasswordResetConfirm.mk T new_pw) w1
      = (Return reset_ok_body,
         mkWorld
           (coll_update_one (by_email e)
              (User.set_password (hash_password new_pw) (clock (4 + clock_reads w)))
              (users w))
           (reset_tokens w
            ++ [(next_oid w,
                 PasswordResetToken.set_used (clock (5 + clock_reads w)) issued)])
           (S (next_oid w)) (6 + clock_reads w) (S (entropy_reads w))))
  /\ ((clock (clock_reads w) + Datetime.hours 1 < clock (3 + clock_reads w))%Z ->
      password_reset_confirm (PasswordResetConfirm.mk T new_pw) w1
      = (Raise TokenExpired, ticked 1 w1)).
Proof.
  intros [_ Hids] Hissued Hnew [u E]%by_email_elem T issued w1.
  assert (password_reset_request (PasswordResetRequest.mk e) w
          = (Return (forgot_present_body T),
             mkWorld (users w) (reset_tokens w ++ [(next_oid w, issued)])
                     (S (next_oid w)) (3 + clock_reads w) (S (entropy_reads w)))) as Hreq
    by apply (forgot_run_present (PasswordResetRequest.mk e) w u E).
  assert (first_match (by_unused_token T) (reset_tokens w ++ [(next_oid w, issued)])
            (length (reset_tokens w)) (next_oid w, issued)) as Hfirst.
  { apply first_match_snoc; [by apply fresh_token_no_match|done]. }
  assert (coll_find_one (by_unused_token T) (reset_tokens w1) = Some (next_oid w, issued))
    as Hfind.
  { subst w1. rewrite Hreq. simpl. apply coll_find_one_Some. by eexists. }
  split; [done|]. split; [done|]. split.
  - intros Hle.
    rewrite (confirm_run_ok (PasswordResetConfirm.mk T new_pw) w1 _ Hfind);
      subst w1; rewrite Hreq; simpl; [|exact Hle].
    f_equal. f_equal.
    pose proof (ids_ok_insert _ _ issued Hids) as [Hnd _].
    destruct Hfirst as (Hj & _).
    rewrite (coll_update_one_first _ _ _ _ _ (first_match_by_id _ _ _ Hnd Hj)).
    apply insert_snoc.
  - intros Hlt.
    rewrite (confirm_run_expired (PasswordResetConfirm.mk T new_pw) w1 _ Hfind); [done|].
    subst w1. rewrite Hreq. simpl. exact Hlt.
Qed.

(** C4. A freshly issued, unexpired reset token redeems exactly once.
    For an existing User [e], with the token [T] that
    [password_reset_request] just returned (fresh: the generator has not
    produced it before) and unexpired -- the clock's reading at the
    check is not after the [expires_at] that the store holds for [T],
    which is the written one cut to the millisecond: the first [password_reset_confirm(T, new_pw)] returns ok and the User
    found for [e] now stores [hash(new_pw)]; a second confirm with the
    same token, right after, fails with InvalidToken (400) and changes no
    password. *)
Theorem fresh_token_redeems_exactly_once (e new_pw other_pw : string) (w : World) :
  store_ok w -> issued_by_uuid4 urandom16 w -> next_uuid_is_new urandom16 w ->
  (exists u, u ∈ users w /\ User.email u.2 = e) ->
  let T := UUID.uuid4_hex (urandom16 (entropy_reads w)) in
  let r0 := password_reset_request (PasswordResetRequest.mk e) w in
  (exists rec, coll_find_one (by_unused_token T) (reset_tokens r0.2) = Some rec
               /\ (clock (clock_reads r0.2)
                   <= Datetime.as_stored (PasswordResetToken.expires_at rec.2))%Z) ->
  let r1 := password_reset_confirm (PasswordResetConfirm.mk T new_pw) r0.2 in
  let r2 := password_reset_confirm (PasswordResetConfirm.mk T other_pw) r1.2 in
  json_get "preview_token" (http_body r0.1) = Some (JStr T)
  /\ r1.1 = Return reset_ok_body
  /\ (exists u, coll_find_one (by_email e) (users r1.2) = Some u
                /\ User.hashed_password u.2 = hash_password new_pw)
  /\ r2.1 = Raise InvalidToken
  /\ http_status r2.1 = 400%Z
  /\ users r2.2 = users r1.2.
Proof.
  intros Hok Hissued Hnew Hu T r0 (rec & Hrec & Hle) r1 r2.
  destruct (redeem_issued_token e new_pw w Hok Hissued Hnew Hu)
    as (Hreq & Hfind & Hredeem & _).
  fold T in Hreq, Hfind, Hredeem. fold r0 in Hfind.
  rewrite Hfind in Hrec. injection Hrec as <-.
  assert (clock (3 + clock_reads w) <= clock (clock_reads w) + Datetime.hours 1)%Z as Hle'.
  { subst r0. rewrite Hreq in Hle. exact (Z.le_trans _ _ _ Hle (as_stored_le _)). }
  specialize (Hredeem Hle').
  apply by_email_elem in Hu as [u0 E].
  assert (r2 = (Raise InvalidToken, r1.2)) as Hr2.
  { subst r2. apply confirm_run_invalid. subst r1 r0. rewrite Hredeem. simpl.
    apply coll_find_one_None. apply no_match_snoc.
    - by apply fresh_token_no_match.
    - intros [_ Hused]. discriminate Hused. }
  rewrite Hr2. subst r1 r0. rewrite Hredeem, Hreq. simpl.
  split; [done|]. split; [done|]. split; [|done].
  eexists. split; [by apply find_after_password_update|done].
Qed.

(** C7. [password_reset_confirm] replaces the credential that [login]
    verifies.  For an existing User [e], once [password_reset_request]
    has returned a (fresh) token [T] and
    [password_reset_confirm(T, new_pw)] has succeeded, [login] with a
    password whose digest differs from that of [new_pw] -- the old
    password -- fails with 401, and [login] with [new_pw] succeeds. *)
Theorem reset_replaces_login_credential (e old_pw new_pw : string) (w : World) :
  store_ok w -> issued_by_uuid4 urandom16 w -> next_uuid_is_new urandom16 w ->
  (exists u, u ∈ users w /\ User.email u.2 = e) ->
  hash_password old_pw <> hash_password new_pw ->
  let r0 := password_reset_request (PasswordResetRequest.mk e) w in
  forall T, json_get "preview_token" (http_body r0.1) = Some (JStr T) ->
  let r1 := password_reset_confirm (PasswordResetConfirm.mk T new_pw) r0.2 in
  r1.1 = Return reset_ok_body ->
  let r2 := login (LoginRequest.mk e old_pw) r1.2 in
  let r3 := login (LoginRequest.mk e new_pw) r2.2 in
  r2.1 = Raise InvalidCredentials
  /\ http_status r2.1 = 401%Z
  /\ exists token name, r3.1 = Return (login_ok_body token e name).
Proof.
  intros Hok Hissued Hnew Hu Hdiff r0 T HT r1 Hr1 r2 r3.
  destruct (redeem_issued_token e new_pw w Hok Hissued Hnew Hu)
    as (Hreq & _ & Hredeem & Hexpired).
  assert (T = UUID.uuid4_hex (urandom16 (entropy_reads w))) as ->.
  { subst r0. rewrite Hreq in HT. simpl in HT. by injection HT. }
  destruct (decide (clock (3 + clock_reads w)
                    <= clock (clock_reads w) + Datetime.hours 1)%Z) as [Hle|Hgt].
  2: { subst r1 r0. rewrite Hexpired in Hr1 by lia. discriminate. }
  specialize (Hredeem Hle).
  apply by_email_elem in Hu as [u0 E].
  pose proof (find_after_password_update e (hash_password new_pw)
                (clock (4 + clock_reads w)) _ _ E) as Hfind.
  assert (r2 = (Raise InvalidCredentials, r1.2)) as Hr2.
  { subst r2. eapply login_run_wrong.
    - subst r1 r0. rewrite Hredeem. simpl. exact Hfind.
    - simpl. congruence. }
  split; [by rewrite Hr2|]. split; [by rewrite Hr2|].
  subst r3. rewrite Hr2. simpl.
  assert (coll_find_one (by_email e) (users r1.2) = Some (u0.1, User.set_password
             (hash_password new_pw) (clock (4 + clock_reads w)) u0.2)) as Hfind'.
  { subst r1 r0. rewrite Hredeem. simpl. exact Hfind. }
  rewrite (login_run_ok (LoginRequest.mk e new_pw) r1.2 _ Hfind') by done.
  simpl. do 2 eexists. f_equal. f_equal.
  apply coll_find_one_elem in E as [_ He]. exact He.
Qed.
End Routes.

(** ** hash_password *)



(** ** The claims at concrete inputs *)

(** Every reading of the boundary clock, and the expiry an hour after it,
    is a whole number of milliseconds: the store keeps it as written. *)
Lemma boundary_clock_stored n :
  Datetime.as_stored (boundary_clock n) = boundary_clock n
  /\ Datetime.as_stored (boundary_clock n + Datetime.hours 1)
     = (boundary_clock n + Datetime.hours 1)%Z.
Proof.
  unfold boundary_clock, Datetime.hours.
  split; apply as_stored_millis.
  - replace (63929382120123000 + 1200000000 * Z.of_nat n)%Z
      with ((63929382120123 + 1200000 * Z.of_nat n) * 1000)%Z by lia.
    apply Z.mod_mul. lia.
  - replace (63929382120123000 + 1200000000 * Z.of_nat n + 1 * 3600 * 1000000)%Z
      with ((63929382120123 + 1200000 * Z.of_nat n + 3600000) * 1000)%Z by lia.
    apply Z.mod_mul. lia.
Qed.

Lemma ids_ok_nil {A} n : ids_ok n ([] : list (nat * A)).
Proof. split; constructor. Qed.

Lemma store_ok_scenario_registered : store_ok scenario_registered.
Proof. apply store_ok_serve, store_ok_empty. Qed.

Lemma store_ok_scenario_issued : store_ok scenario_issued.
Proof. apply store_ok_route, store_ok_scenario_registered. Qed.

Lemma scenario_registered_tokens : reset_tokens scenario_registered = [].
Proof. vm_compute. reflexivity. Qed.

Lemma scenario_registered_entropy : entropy_reads scenario_registered = 0%nat.
Proof. vm_compute. reflexivity. Qed.

Lemma scenario_issued_entropy : entropy_reads scenario_issued = 1%nat.
Proof. vm_compute. reflexivity. Qed.

Lemma issued_scenario_registered : issued_by_uuid4 scenario_urandom scenario_registered.
Proof. intros d Hd. rewrite scenario_registered_tokens in Hd. inversion Hd. Qed.

Lemma issued_scenario_issued : issued_by_uuid4 scenario_urandom scenario_issued.
Proof. apply (issued_by_uuid4_route ∅), issued_scenario_registered. Qed.

Lemma new_uuid_scenario_registered : next_uuid_is_new scenario_urandom scenario_registered.
Proof. intros k Hk. rewrite scenario_registered_entropy in Hk. lia. Qed.

Lemma new_uuid_scenario_issued : next_uuid_is_new scenario_urandom scenario_issued.
Proof.
  intros k Hk. rewrite scenario_issued_entropy in *.
  assert (k = 0%nat) as -> by lia. vm_compute. discriminate.
Qed.

Lemma registered_scenario_user :
  exists u, u ∈ users scenario_registered /\ User.email u.2 = "a@x.com".
Proof.
  exists (0%nat, User.mk "a@x.com" None (Main.hash_password ∅ "p1")
                   (scenario_clock 0) (scenario_clock 1)).
  split; [|reflexivity].
  assert (users scenario_registered
          = [(0%nat, User.mk "a@x.com" None (Main.hash_password ∅ "p1")
                       (scenario_clock 0) (scenario_clock 1))]) as ->
    by (vm_compute; reflexivity).
  apply list_elem_of_here.
Qed.

Lemma registered_scenario_issued_user :
  exists u, u ∈ users scenario_issued /\ User.email u.2 = "a@x.com".
Proof.
  destruct registered_scenario_user as (u & Hu & He).
  destruct (emails_persist_route ∅ scenario_clock scenario_urandom
              (Main.PostForgot (PasswordResetRequest.mk "a@x.com")) _ u Hu)
    as (u' & Hu' & He').
  exists u'. split; [exact Hu'|congruence].
Qed.

(** C1 at work: the token of the scenario is redeemed by the third rule. *)
Lemma password_reset_confirm_state_machine_witness :
  store_ok scenario_issued
  /\ (Main.password_reset_confirm ∅ scenario_clock
        (PasswordResetConfirm.mk scenario_token "p2") scenario_issued).1
     = Return reset_ok_body
  /\ confirm_reset_spec ∅ scenario_clock
       (PasswordResetConfirm.mk scenario_token "p2") scenario_issued
       (Main.password_reset_confirm ∅ scenario_clock
          (PasswordResetConfirm.mk scenario_token "p2") scenario_issued).
Proof.
  split; [exact store_ok_scenario_issued|]. split; [vm_compute; reflexivity|].
  exact (password_reset_confirm_state_machine ∅ scenario_clock
           (PasswordResetConfirm.mk scenario_token "p2") scenario_issued
           store_ok_scenario_issued).
Defined.


(** C3 (as stated) fails: a token whose [expires_at] equals the clock's
    reading is still redeemed, although [now < expires_at] does not hold.
    The store is the one reached by signup and request_reset under a clock
    that reads exactly [expires_at] at the check; [expires_at] is
    2026-11-04 11:22:00.123, a whole number of milliseconds, which the
    store keeps as written. *)
Lemma reset_at_expiry_instant_redeems :
  let p := PasswordResetConfirm.mk scenario_token "p2" in
  let now := boundary_clock (clock_reads boundary_world) in
  let r := Main.password_reset_confirm ∅ boundary_clock p boundary_world in
  store_ok boundary_world
  /\ (exists rec,
        coll_find_one (by_unused_token scenario_token) (reset_tokens boundary_world)
        = Some rec
        /\ PasswordResetToken.used rec.2 = false
        /\ PasswordResetToken.expires_at rec.2 = 63929388120123000%Z
        /\ Datetime.as_stored (PasswordResetToken.expires_at rec.2)
           = PasswordResetToken.expires_at rec.2
        /\ Datetime.str (PasswordResetToken.expires_at rec.2) = "2026-11-04 11:22:00.123000"
        /\ PasswordResetToken.expires_at rec.2 = now
        /\ ~ (now < PasswordResetToken.expires_at rec.2)%Z)
  /\ r.1 = Return reset_ok_body
  /\ User.hashed_password ∘ snd <$> users boundary_world = [Main.hash_password ∅ "p1"]
  /\ User.hashed_password ∘ snd <$> users r.2 = [Main.hash_password ∅ "p2"]
  /\ users r.2 <> users boundary_world.
Proof.
  cbv zeta. split; [apply store_ok_serve, store_ok_empty|].
  split.
  { eexists. split; [vm_compute; reflexivity|].
    repeat apply conj; try (vm_compute; reflexivity). vm_compute. discriminate. }
  repeat apply conj; try (vm_compute; reflexivity). vm_compute. discriminate.
Qed.

(** C4 at work, on the scenario: the token issued for "a@x.com" is stored
    with an [expires_at] an hour ahead of the check, it is redeemed with
    "p2", and a second attempt with "p3" is refused. *)
Lemma fresh_token_redeems_exactly_once_witness :
  let request := Main.password_reset_request scenario_clock scenario_urandom in
  let confirm := Main.password_reset_confirm ∅ scenario_clock in
  let T := UUID.uuid4_hex (scenario_urandom (entropy_reads scenario_registered)) in
  let r0 := request (PasswordResetRequest.mk "a@x.com") scenario_registered in
  let r1 := confirm (PasswordResetConfirm.mk T "p2") r0.2 in
  let r2 := confirm (PasswordResetConfirm.mk T "p3") r1.2 in
  T = scenario_token
  /\ (exists rec, coll_find_one (by_unused_token T) (reset_tokens r0.2) = Some rec
                  /\ (scenario_clock (clock_reads r0.2)
                      <= Datetime.as_stored (PasswordResetToken.expires_at rec.2))%Z)
  /\ json_get "preview_token" (http_body r0.1) = Some (JStr T)
  /\ r1.1 = Return reset_ok_body
  /\ (exists u, coll_find_one (by_email "a@x.com") (users r1.2) = Some u
                /\ User.hashed_password u.2 = Main.hash_password ∅ "p2")
  /\ r2.1 = Raise InvalidToken
  /\ http_status r2.1 = 400%Z
  /\ users r2.2 = users r1.2.
Proof.
  cbv zeta.
  assert (exists rec,
            coll_find_one
              (by_unused_token
                 (UUID.uuid4_hex (scenario_urandom (entropy_reads scenario_registered))))
              (reset_tokens
                 (Main.password_reset_request scenario_clock scenario_urandom
                    (PasswordResetRequest.mk "a@x.com") scenario_registered).2)
            = Some rec
            /\ (scenario_clock
                  (clock_reads
                     (Main.password_reset_request scenario_clock scenario_urandom
                        (PasswordResetRequest.mk "a@x.com") scenario_registered).2)
                <= Datetime.as_stored (PasswordResetToken.expires_at rec.2))%Z) as Hstored.
  { eexists. split; [vm_compute; reflexivity|]. vm_compute. discriminate. }
  split; [vm_compute; reflexivity|]. split; [exact Hstored|].
  exact (fresh_token_redeems_exactly_once ∅ scenario_clock scenario_urandom
           "a@x.com" "p2" "p3" scenario_registered
           store_ok_scenario_registered issued_scenario_registered
           new_uuid_scenario_registered registered_scenario_user Hstored).
Defined.

(** The first three steps of the scenario of the specification:
    signup("a@x.com","p1") -> ok; login("a@x.com","p1") -> ok with a token;
    login("a@x.com","wrong") -> 401. *)
Example scenario_first_steps :
  let r1 := scenario_route (Main.PostSignup (SignupRequest.mk "a@x.com" "p1" None))
              empty_world in
  let r2 := scenario_route (Main.PostLogin (LoginRequest.mk "a@x.com" "p1")) r1.2 in
  let r3 := scenario_route (Main.PostLogin (LoginRequest.mk "a@x.com" "wrong")) r2.2 in
  r1.1 = Return signup_ok_body
  /\ r2.1 = Return (login_ok_body
                      "bd33eec85a09eb5b8d6fe129393064ef1535f058de511ecc10de7a13bc5ab7d2"
                      "a@x.com" None)
  /\ r3.1 = Raise InvalidCredentials
  /\ http_status r3.1 = 401%Z
  /\ r3.2 = scenario_registered.
Proof. vm_compute. repeat split. Qed.

(** C7 at work: the rest of the scenario, from the store the first three
    steps leave.  request_reset("a@x.com") -> ok with token T;
    confirm_reset(T,"p2") -> ok; login("a@x.com","p1") -> 401;
    login("a@x.com","p2") -> ok. *)
Lemma reset_replaces_login_credential_witness :
  let request := Main.password_reset_request scenario_clock scenario_urandom in
  let confirm := Main.password_reset_confirm ∅ scenario_clock in
  let login := Main.login ∅ scenario_clock in
  let r0 := request (PasswordResetRequest.mk "a@x.com") scenario_registered in
  let r1 := confirm (PasswordResetConfirm.mk scenario_token "p2") r0.2 in
  let r2 := login (LoginRequest.mk "a@x.com" "p1") r1.2 in
  let r3 := login (LoginRequest.mk "a@x.com" "p2") r2.2 in
  Main.hash_password ∅ "p1" <> Main.hash_password ∅ "p2"
  /\ r0.1 = Return (forgot_present_body scenario_token)
  /\ r1.1 = Return reset_ok_body
  /\ (r2.1 = Raise InvalidCredentials
      /\ http_status r2.1 = 401%Z
      /\ exists token name, r3.1 = Return (login_ok_body token "a@x.com" name)).
Proof.
  cbv zeta.
  assert (Main.hash_password ∅ "p1" <> Main.hash_password ∅ "p2") as Hdiff
    by (vm_compute; discriminate).
  assert ((Main.password_reset_confirm ∅ scenario_clock
             (PasswordResetConfirm.mk scenario_token "p2")
             (Main.password_reset_request scenario_clock scenario_urandom
                (PasswordResetRequest.mk "a@x.com") scenario_registered).2).1
          = Return reset_ok_body) as Hok by (vm_compute; reflexivity).
  split; [exact Hdiff|]. split; [vm_compute; reflexivity|]. split; [exact Hok|].
  exact (reset_replaces_login_credential ∅ scenario_clock scenario_urandom
           "a@x.com" "p1" "p2" scenario_registered
           store_ok_scenario_registered issued_scenario_registered
           new_uuid_scenario_registered registered_scenario_user Hdiff
           scenario_token ltac:(vm_compute; reflexivity) Hok).
Defined.

(** C8 at work: a second request for "a@x.com" in the scenario draws a
    token different from the stored one. *)
Lemma request_reset_issues_token_witness :
  let T := UUID.uuid4_hex (scenario_urandom 1) in
  let r := Main.password_reset_request scenario_clock scenario_urandom
             (PasswordResetRequest.mk "a@x.com") scenario_issued in
  (PasswordResetToken.token ∘ snd <$> reset_tokens scenario_issued = [scenario_token])
  /\ T = "0123456789ab4def8123456789abcdf0"
  /\ (forall d, d ∈ reset_tokens scenario_issued -> PasswordResetToken.token d.2 <> T)
  /\ (exists created updated,
        reset_tokens r.2
        = reset_tokens scenario_issued
          ++ [(next_oid scenario_issued,
               PasswordResetToken.mk "a@x.com" T
                 (scenario_clock (clock_reads scenario_issued) + 3600 * 1000000)%Z
                 false created updated)])
  /\ users r.2 = users scenario_issued
  /\ r.1 = Return (forgot_present_body T)
  /\ json_get "preview_token" (http_body r.1) = Some (JStr T)
  /\ issued_by_uuid4 scenario_urandom r.2.
Proof.
  cbv zeta.
  split; [vm_compute; reflexivity|]. split; [vm_compute; reflexivity|].
  pose proof (request_reset_issues_token ∅ scenario_clock scenario_urandom
                (PasswordResetRequest.mk "a@x.com") scenario_issued
                issued_scenario_issued new_uuid_scenario_issued
                registered_scenario_issued_user) as H.
  cbv zeta in H. rewrite scenario_issued_entropy in H. exact H.
Defined.

Lemma store_ok_orphan_world : store_ok orphan_world.
Proof.
  split; [apply ids_ok_nil|]. apply (ids_ok_insert 0 [] orphan_token), ids_ok_nil.
Qed.

(** C10 at work: the token of [orphan_world] is redeemed although no User
    has its email. *)
Lemma reset_with_unmatched_user_email_witness :
  let p := PasswordResetConfirm.mk "T" "p2" in
  let r := Main.password_reset_confirm ∅ scenario_clock p orphan_world in
  users orphan_world = []
  /\ r.1 = Return reset_ok_body
  /\ users r.2 = users orphan_world
  /\ reset_tokens r.2
     = <[0%nat := (0%nat, PasswordResetToken.set_used
                            (scenario_clock (2 + clock_reads orphan_world)) orphan_token)]>
         (reset_tokens orphan_world)
  /\ PasswordResetToken.used <$> (snd <$> reset_tokens r.2 !! 0%nat) = Some true.
Proof.
  cbv zeta. split; [reflexivity|].
  refine (reset_with_unmatched_user_email ∅ scenario_clock
            (PasswordResetConfirm.mk "T" "p2") orphan_world 0 (0%nat, orphan_token)
            store_ok_orphan_world _ _ _).
  - split; [reflexivity|]. split; [done|]. intros i d _ Hlt. lia.
  - vm_compute. discriminate.
  - intros d Hd. inversion Hd.
Defined.


(** ** Further runs of the routes on the scenario *)

(** A second signup with the registered email is refused, however the
    password differs; the lookup is by the exact string, so the same email
    in another case is a new account. *)
Example signup_twice_and_case :
  (scenario_route (Main.PostSignup (SignupRequest.mk "a@x.com" "other" (Some "A")))
     scenario_registered).1
  = Raise DuplicateEmail
  /\ (scenario_route (Main.PostSignup (SignupRequest.mk "A@x.com" "p1" None))
        scenario_registered).1
     = Return signup_ok_body.
Proof. vm_compute. repeat split. Qed.

(** Two hours after it was issued the token of the scenario is refused
    with TokenExpired and stays as it was; an unknown token is refused with
    InvalidToken. *)
Example expired_and_unknown_tokens :
  let confirm := Main.password_reset_confirm ∅ late_clock in
  let r := confirm (PasswordResetConfirm.mk scenario_token "p2") scenario_issued in
  r.1 = Raise TokenExpired
  /\ users r.2 = users scenario_issued
  /\ reset_tokens r.2 = reset_tokens scenario_issued
  /\ PasswordResetToken.used ∘ snd <$> reset_tokens r.2 = [false]
  /\ confirm (PasswordResetConfirm.mk "no such token" "p2") scenario_issued
     = (Raise InvalidToken, scenario_issued).
Proof. vm_compute. repeat split. Qed.

(** Every store a session of requests reaches from the empty one keeps
    the invariants the theorems above assume. *)
Lemma reachable_store_invariants environ clock urandom16 rs :
  let w := Main.serve environ clock urandom16 rs empty_world in
  store_ok w /\ issued_by_uuid4 urandom16 w.
Proof.
  cbv zeta. split; [apply store_ok_serve, store_ok_empty|].
  assert (forall w, issued_by_uuid4 urandom16 w ->
                    issued_by_uuid4 urandom16 (Main.serve environ clock urandom16 rs w)) as H.
  { induction rs as [|r rs IH]; intros w Hw; simpl; [done|].
    by apply IH, issued_by_uuid4_route. }
  apply H. intros d Hd. inversion Hd.
Qed.


(** * The blog routes *)

Example base_slug_hello :
  MainBlog.base_slug_of ascii_lower (PyStr.lit "  Hello World/2026 ")
  = PyStr.lit "hello-world-2026".
Proof. vm_compute. reflexivity. Qed.

Example create_hello_three_times :
  post_slugs
  <$> MainBlog.create_repeatedly scenario_clock ascii_lower 3 hello_post empty_site
  = Some [PyStr.lit "hello-world-2026"; PyStr.lit "hello-world-2026-2";
          PyStr.lit "hello-world-2026-3"].
Proof. vm_compute. reflexivity. Qed.

(** ** Strings as code points *)

Lemma replace_length old new s : length (PyStr.replace old new s) = length s.
Proof. apply length_map. Qed.

Lemma replace_elem old new s c :
  c ∈ PyStr.replace old new s -> c = new \/ (c ∈ s /\ c <> old).
Proof.
  unfold PyStr.replace. intros (c0 & -> & Hc0)%list_elem_of_fmap.
  destruct (N.eqb_spec c0 old) as [->|Hne]; [by left|by right].
Qed.

Lemma lit_inj s1 s2 : PyStr.lit s1 = PyStr.lit s2 -> s1 = s2.
Proof.
  unfold PyStr.lit. intros H.
  rewrite <- (string_of_list_ascii_of_string s1), <- (string_of_list_ascii_of_string s2).
  f_equal. revert H. generalize (list_ascii_of_string s1), (list_ascii_of_string s2).
  intros l1. induction l1 as [|a l1 IH]; intros [|b l2] H; simpl in H; try done.
  injection H as Hab Hl. f_equal; [|by apply IH].
  by rewrite <- (ascii_N_embedding a), <- (ascii_N_embedding b), Hab.
Qed.

Lemma of_nat_inj i j : PyStr.of_nat i = PyStr.of_nat j -> i = j.
Proof.
  unfold PyStr.of_nat. intros H%lit_inj.
  apply DecimalNat.Unsigned.to_uint_inj.
  assert (Some (Nat.to_uint i) = Some (Nat.to_uint j)) as [= E]; [|done].
  by rewrite <- !NilEmpty.usu, H.
Qed.

Lemma slug_candidate_inj base t u : slug_candidate base t = slug_candidate base u -> t = u.
Proof.
  destruct t as [|t], u as [|u]; simpl; intros H; [done| | |].
  - apply (f_equal length) in H. rewrite length_app in H. simpl in H. lia.
  - apply (f_equal length) in H. rewrite length_app in H. simpl in H. lia.
  - apply app_inv_head in H. injection H as H. apply of_nat_inj in H. congruence.
Qed.

(** [n] posts cannot carry [n + 1] different slugs. *)
Lemma candidates_not_all_taken base (l : list pystr) n :
  (forall v, (v < S n)%nat -> slug_candidate base v ∈ l) -> (n < length l)%nat.
Proof.
  intros Hall.
  assert (NoDup (slug_candidate base <$> seq 0 (S n))) as Hnd.
  { apply NoDup_fmap_2_strong; [|apply NoDup_seq].
    intros t u _ _. apply slug_candidate_inj. }
  assert (slug_candidate base <$> seq 0 (S n) ⊆+ l) as Hsub.
  { apply NoDup_submseteq; [done|].
    intros x (v & -> & Hv)%list_elem_of_fmap. apply Hall.
    apply elem_of_seq in Hv. lia. }
  apply submseteq_length in Hsub. rewrite length_fmap, length_seq in Hsub. lia.
Qed.

Lemma omap_length_le {A B} (f : A -> option B) (l : list A) :
  (length (omap f l) <= length l)%nat.
Proof.
  induction l as [|d l IH]; [done|].
  change (omap f (d :: l)) with (match f d with Some y => y :: omap f l | None => omap f l end).
  destruct (f d); simpl; lia.
Qed.

Lemma post_slugs_length s : (length (post_slugs s) <= length (blogposts s))%nat.
Proof. apply omap_length_le. Qed.

Lemma find_by_slug_None s x :
  coll_find_one (by_slug x) (blogposts s) = None <-> x ∉ post_slugs s.
Proof.
  rewrite coll_find_one_None. unfold no_match, post_slugs, by_slug. split.
  - intros Hno (d & Hd & Hx)%list_elem_of_omap. by apply (Hno d).
  - intros Hx d Hd Hs. apply Hx. apply list_elem_of_omap. by exists d.
Qed.


Lemma find_by_slug_app_l (posts : list (nat * BlogPost.t)) more x d :
  coll_find_one (by_slug x) posts = Some d ->
  coll_find_one (by_slug x) (posts ++ more) = Some d.
Proof.
  intros [j (Hj & Hq & Hbefore)]%coll_find_one_Some.
  apply coll_find_one_Some. exists j. split; [|split; [done|]].
  - by apply lookup_app_l_Some.
  - intros i d' Hi Hlt. apply (Hbefore i d'); [|done].
    rewrite lookup_app_l in Hi; [done|]. apply lookup_lt_Some in Hj. lia.
Qed.

(** Where the slugs are pairwise different, a post is the first one that
    carries its slug. *)
Lemma first_match_unique_slug (posts : list (nat * BlogPost.t)) j d x :
  NoDup (omap (BlogPost.slug ∘ snd) posts) ->
  posts !! j = Some d -> BlogPost.slug d.2 = Some x ->
  first_match (by_slug x) posts j d.
Proof.
  intros Hnd Hj Hx. split; [done|]. split; [done|].
  intros i d' Hi Hlt Hq. unfold by_slug in Hq.
  apply lookup_lt_Some in Hj as Hlen.
  rewrite <- (take_drop j posts), omap_app in Hnd.
  apply NoDup_app in Hnd as (_ & Hdisj & _).
  apply (Hdisj x).
  - apply list_elem_of_omap. exists d'. split; [|done].
    apply (list_elem_of_lookup_2 _ i). rewrite lookup_take_lt; done.
  - apply list_elem_of_omap. exists d. split; [|done].
    apply (list_elem_of_lookup_2 _ 0%nat). rewrite lookup_drop. by rewrite Nat.add_0_r.
Qed.

(** ** The slug loop and the two blog routes *)

Section BlogRoutes.
Variable clock : nat -> Z.
Variable lower : pystr -> pystr.
Variable str_of_oid : nat -> pystr.

Local Abbreviation base_slug_of := (MainBlog.base_slug_of lower).
Local Abbreviation create_blog_post := (MainBlog.create_blog_post clock lower).
Local Abbreviation create_repeatedly := (MainBlog.create_repeatedly clock lower).
Local Abbreviation get_blog_post := (MainBlog.get_blog_post str_of_oid).

Lemma while_slug_taken_step fuel base t s :
  MainBlog.while_slug_taken (S fuel) base (S t) (slug_candidate base t) s
  = if decide (slug_candidate base t ∈ post_slugs s)
    then MainBlog.while_slug_taken fuel base (S (S t)) (slug_candidate base (S t)) s
    else Some (Return (slug_candidate base t), s).
Proof.
  simpl. unfold sbind, blog_find_one.
  destruct (coll_find_one (by_slug (slug_candidate base t)) (blogposts s)) as [d|] eqn:E.
  - rewrite decide_True; [done|].
    destruct (decide (slug_candidate base t ∈ post_slugs s)) as [|Hn]; [done|].
    apply find_by_slug_None in Hn. congruence.
  - apply find_by_slug_None in E. by rewrite decide_False.
Qed.

Lemma while_slug_taken_outcome fuel base t s :
  ((forall v, (t <= v < t + fuel)%nat -> slug_candidate base v ∈ post_slugs s)
   /\ MainBlog.while_slug_taken fuel base (S t) (slug_candidate base t) s = None)
  \/ (exists u, (t <= u < t + fuel)%nat
        /\ (slug_candidate base u ∉ post_slugs s)
        /\ (forall v, (t <= v < u)%nat -> slug_candidate base v ∈ post_slugs s)
        /\ MainBlog.while_slug_taken fuel base (S t) (slug_candidate base t) s
           = Some (Return (slug_candidate base u), s)).
Proof.
  revert t. induction fuel as [|fuel IH]; intros t.
  - left. split; [intros v Hv; lia|done].
  - rewrite while_slug_taken_step.
    destruct (decide (slug_candidate base t ∈ post_slugs s)) as [Ht|Ht].
    + destruct (IH (S t)) as [[Hall Hnone]|(u & Hu & Hfree & Hbefore & Hsome)].
      * left. split; [|done]. intros v Hv.
        destruct (decide (v = t)) as [->|Hne]; [done|]. apply Hall. lia.
      * right. exists u. split; [lia|]. split; [done|]. split; [|done].
        intros v Hv. destruct (decide (v = t)) as [->|Hne]; [done|]. apply Hbefore. lia.
    + right. exists t. split; [lia|]. split; [done|]. split; [|done]. intros v Hv. lia.
Qed.

(** With fuel for one test more than there are posts the loop finishes,
    on the first candidate that no post carries. *)
Lemma while_slug_taken_enough_fuel fuel base s :
  (length (blogposts s) < fuel)%nat ->
  exists u, (u <= length (blogposts s))%nat
    /\ (slug_candidate base u ∉ post_slugs s)
    /\ (forall v, (v < u)%nat -> slug_candidate base v ∈ post_slugs s)
    /\ MainBlog.while_slug_taken fuel base 1 base s
       = Some (Return (slug_candidate base u), s).
Proof.
  intros Hfuel. pose proof (post_slugs_length s) as Hlen.
  destruct (while_slug_taken_outcome fuel base 0 s)
    as [[Hall _]|(u & Hu & Hfree & Hbefore & Hsome)].
  - assert (length (blogposts s) < length (post_slugs s))%nat; [|lia].
    apply (candidates_not_all_taken base). intros v Hv. apply Hall. lia.
  - exists u. split; [|split; [done|split; [|done]]].
    + destruct (decide (u <= length (blogposts s))%nat) as [|Hgt]; [done|].
      assert (length (blogposts s) < length (post_slugs s))%nat; [|lia].
      apply (candidates_not_all_taken base). intros v Hv. apply Hbefore. lia.
    + intros v Hv. apply Hbefore. lia.
Qed.

Lemma create_blog_post_run fuel payload s x :
  MainBlog.while_slug_taken fuel (base_slug_of (BlogPostCreate.title payload)) 1
    (base_slug_of (BlogPostCreate.title payload)) s
  = Some (Return x, s) ->
  create_blog_post fuel payload s
  = Some (Return (BlogCreated.mk true x), posted clock payload x s).
Proof.
  intros Hloop. unfold MainBlog.create_blog_post, sbind. by rewrite Hloop.
Qed.

Lemma create_blog_post_outcome fuel payload s :
  (length (blogposts s) < fuel)%nat ->
  exists u, (u <= length (blogposts s))%nat
    /\ (slug_candidate (base_slug_of (BlogPostCreate.title payload)) u ∉ post_slugs s)
    /\ (forall v, (v < u)%nat ->
          slug_candidate (base_slug_of (BlogPostCreate.title payload)) v ∈ post_slugs s)
    /\ create_blog_post fuel payload s
       = Some (Return (BlogCreated.mk true
                         (slug_candidate (base_slug_of (BlogPostCreate.title payload)) u)),
               posted clock payload
                 (slug_candidate (base_slug_of (BlogPostCreate.title payload)) u) s).
Proof.
  intros Hfuel.
  destruct (while_slug_taken_enough_fuel fuel
              (base_slug_of (BlogPostCreate.title payload)) s Hfuel)
    as (u & Hu & Hfree & Hbefore & Hloop).
  exists u. split; [done|]. split; [done|]. split; [done|].
  by apply create_blog_post_run.
Qed.

Lemma post_slugs_posted payload x s :
  post_slugs (posted clock payload x s) = post_slugs s ++ [x].
Proof. unfold post_slugs, posted. simpl. by rewrite omap_app. Qed.
End BlogRoutes.

Section BlogProperties.
Variable clock : nat -> Z.
Variable lower : pystr -> pystr.
Variable str_of_oid : nat -> pystr.

Local Abbreviation base_slug_of := (MainBlog.base_slug_of lower).
Local Abbreviation create_blog_post := (MainBlog.create_blog_post clock lower).
Local Abbreviation create_repeatedly := (MainBlog.create_repeatedly clock lower).
Local Abbreviation get_blog_post := (MainBlog.get_blog_post str_of_oid).

(** X1. Whatever the title, the base slug [create_blog_post] derives from
    it has at most 60 characters and contains neither a space nor a slash;
    up to 60 characters it is as long as the lower-cased, stripped title. *)
Theorem base_slug_shape (title : pystr) :
  (length (base_slug_of title) <= 60)%nat
  /\ (PyStr.space ∉ base_slug_of title)
  /\ (PyStr.slash ∉ base_slug_of title)
  /\ length (base_slug_of title) = (length (PyStr.strip (lower title)) `min` 60)%nat.
Proof.
  unfold MainBlog.base_slug_of.
  set (stripped := PyStr.strip (lower title)).
  split; [rewrite length_take; lia|].
  assert (forall c, c ∈ take 60 (PyStr.replace PyStr.slash PyStr.hyphen
                                   (PyStr.replace PyStr.space PyStr.hyphen stripped)) ->
                    c <> PyStr.space /\ c <> PyStr.slash) as Hc.
  { intros c Hin%subseteq_take.
    apply replace_elem in Hin as [->|[Hin Hslash]]; [done|].
    apply replace_elem in Hin as [->|[_ Hspace]]; done. }
  split; [intros H; by destruct (Hc _ H)|].
  split; [intros H; by destruct (Hc _ H)|].
  rewrite length_take, !replace_length. lia.
Qed.

(** X2. Given fuel for one loop test more than there are posts,
    [create_blog_post] always returns.  The slug it returns is carried by
    no post of the blog: it is the first free one among base, base-2,
    base-3, ..., so its number is at most the number of posts plus one.
    The route appends exactly one post -- with that slug, the payload's
    fields, "Team" for a missing or empty author and the clock's next
    three readings as published_at, created_at and updated_at -- and
    touches neither the users nor the reset tokens. *)
Theorem create_blog_post_fresh_slug (fuel : nat) (payload : BlogPostCreate.t) (s : Site) :
  (length (blogposts s) < fuel)%nat ->
  exists u slug s',
    create_blog_post fuel payload s = Some (Return (BlogCreated.mk true slug), s')
    /\ slug = slug_candidate (base_slug_of (BlogPostCreate.title payload)) u
    /\ (u <= length (blogposts s))%nat
    /\ (forall d, d ∈ blogposts s -> BlogPost.slug d.2 <> Some slug)
    /\ (forall v, (v < u)%nat ->
          exists d, d ∈ blogposts s
            /\ BlogPost.slug d.2
               = Some (slug_candidate (base_slug_of (BlogPostCreate.title payload)) v))
    /\ blogposts s'
       = blogposts s
         ++ [(next_oid (auth s),
              BlogPost.mk (BlogPostCreate.title payload) (Some slug)
                (BlogPostCreate.excerpt payload) (BlogPostCreate.content payload)
                (BlogPostCreate.image_url payload)
                (Some (match BlogPostCreate.author payload with
                       | Some (c :: rest) => c :: rest
                       | _ => PyStr.lit "Team"
                       end))
                (Some (clock (clock_reads (auth s))))
                (Some (clock (1 + clock_reads (auth s))))
                (Some (clock (2 + clock_reads (auth s)))))]
    /\ users (auth s') = users (auth s)
    /\ reset_tokens (auth s') = reset_tokens (auth s).
Proof.
  intros Hfuel.
  destruct (create_blog_post_outcome clock lower fuel payload s Hfuel)
    as (u & Hu & Hfree & Hbefore & Hrun).
  exists u. do 2 eexists. split; [exact Hrun|]. split; [done|]. split; [done|].
  split.
  { intros d Hd Hs. apply Hfree. apply list_elem_of_omap. by exists d. }
  split.
  { intros v Hv. by apply list_elem_of_omap, Hbefore. }
  done.
Qed.


(** X4. [create_blog_post] keeps the slugs of the blog pairwise different,
    and never shadows a post: every slug that resolved to a post before the
    call resolves to the same post after it. *)
Theorem create_blog_post_keeps_slugs_unique
    (fuel : nat) (payload : BlogPostCreate.t) (s : Site) :
  (length (blogposts s) < fuel)%nat ->
  NoDup (post_slugs s) ->
  exists r s',
    create_blog_post fuel payload s = Some (r, s')
    /\ NoDup (post_slugs s')
    /\ (forall x d, coll_find_one (by_slug x) (blogposts s) = Some d ->
          coll_find_one (by_slug x) (blogposts s') = Some d).
Proof.
  intros Hfuel Hnd.
  destruct (create_blog_post_outcome clock lower fuel payload s Hfuel)
    as (u & Hu & Hfree & Hbefore & Hrun).
  do 2 eexists. split; [exact Hrun|]. split.
  - rewrite post_slugs_posted. apply NoDup_app. split; [done|]. split.
    + intros x Hx ->%list_elem_of_singleton. by apply Hfree.
    + apply NoDup_singleton.
  - intros x d Hd. unfold posted. simpl. by apply find_by_slug_app_l.
Qed.

(** X5. Posting the same payload [k] times into a blog where none of the
    candidate slugs is in use gives the posts the slugs base, base-2, ...,
    base-k, in this order. *)
Theorem create_repeatedly_numbers_slugs (k : nat) (payload : BlogPostCreate.t) (s : Site) :
  (forall t, slug_candidate (base_slug_of (BlogPostCreate.title payload)) t
             ∉ post_slugs s) ->
  exists s',
    create_repeatedly k payload s = Some s'
    /\ post_slugs s'
       = post_slugs s
         ++ (slug_candidate (base_slug_of (BlogPostCreate.title payload)) <$> seq 0 k).
Proof.
  set (base := base_slug_of (BlogPostCreate.title payload)).
  intros Hfree.
  assert (forall k j s0,
            (forall v, (v < j)%nat -> slug_candidate base v ∈ post_slugs s0) ->
            (forall v, (j <= v)%nat -> slug_candidate base v ∉ post_slugs s0) ->
            exists s', create_repeatedly k payload s0 = Some s'
                       /\ post_slugs s' = post_slugs s0 ++ (slug_candidate base <$> seq j k))
    as Hgen.
  { clear s Hfree. intros n. induction n as [|n IH]; intros j s0 Htaken Hfree; simpl.
    - exists s0. split; [done|]. by rewrite app_nil_r.
    - destruct (create_blog_post_outcome clock lower (S (length (blogposts s0))) payload s0)
        as (u & Hu & Hufree & Hbefore & Hrun); [lia|].
      fold base in Hufree, Hbefore, Hrun.
      assert (u = j) as ->.
      { destruct (decide (u < j)%nat) as [Hlt|Hge]; [by destruct (Hufree (Htaken u Hlt))|].
        destruct (decide (j < u)%nat) as [Hlt|Hge']; [|lia].
        destruct (Hfree j (le_n j) (Hbefore j Hlt)). }
      rewrite Hrun.
      destruct (IH (S j) (posted clock payload (slug_candidate base j) s0))
        as (s' & Hs' & Hslugs).
      + intros v Hv. rewrite post_slugs_posted. apply elem_of_app.
        destruct (decide (v = j)) as [->|Hne]; [right; by apply list_elem_of_singleton|].
        left. apply Htaken. lia.
      + intros v Hv. rewrite post_slugs_posted. intros [Hin|Hin]%elem_of_app.
        * apply (Hfree v); [lia|done].
        * apply list_elem_of_singleton, slug_candidate_inj in Hin. lia.
      + exists s'. split; [done|]. rewrite Hslugs, post_slugs_posted.
        by rewrite <- app_assoc. }
  apply (Hgen k 0%nat s); [intros v Hv; lia|]. intros v _. apply Hfree.
Qed.

(** X6. In a blog whose slugs are pairwise different -- the empty blog is
    one, and [create_blog_post] keeps it so -- every post is reached
    through its own slug: whatever its position among the posts,
    [get_blog_post] on the slug of a stored post answers with the fields
    of that very post, and writes nothing. *)
Theorem get_blog_post_reaches_every_post
    (s : Site) (j : nat) (d : nat * BlogPost.t) (slug : pystr) :
  NoDup (post_slugs s) ->
  blogposts s !! j = Some d ->
  BlogPost.slug d.2 = Some slug ->
  get_blog_post slug s
  = Some (Return (BlogPostOut.mk (str_of_oid d.1) (Some (BlogPost.title d.2))
                    (Some (BlogPost.content d.2)) (BlogPost.image_url d.2)
                    (BlogPost.author d.2) (BlogPost.published_at d.2) (Some slug)),
          s).
Proof.
  intros Hnd Hj Hslug.
  unfold MainBlog.get_blog_post, sbind, blog_find_one.
  assert (coll_find_one (by_slug slug) (blogposts s) = Some d) as ->.
  { apply coll_find_one_Some. exists j. by apply first_match_unique_slug. }
  by rewrite Hslug.
Qed.
End BlogProperties.

(** Witnesses of X2 to X6, on the blogs that hold one and two "Hello World"
    posts. *)

Lemma hello_site_posts : length (blogposts hello_site) = 1%nat.
Proof. vm_compute. reflexivity. Qed.

Lemma hello_site_slugs : post_slugs hello_site = [PyStr.lit "hello-world-2026"].
Proof. vm_compute. reflexivity. Qed.

Lemma create_blog_post_fresh_slug_witness :
  (length (blogposts hello_site) < 2)%nat
  /\ (BlogCreated.slug <$>
        (MainBlog.create_blog_post scenario_clock ascii_lower 2 hello_post hello_site
           ≫= λ r, match r.1 with Return c => Some c | Raise _ => None end))
     = Some (PyStr.lit "hello-world-2026-2")
  /\ exists u slug s',
       MainBlog.create_blog_post scenario_clock ascii_lower 2 hello_post hello_site
       = Some (Return (BlogCreated.mk true slug), s')
       /\ slug = slug_candidate
                   (MainBlog.base_slug_of ascii_lower (BlogPostCreate.title hello_post)) u
       /\ (u <= length (blogposts hello_site))%nat.
Proof.
  assert (length (blogposts hello_site) < 2)%nat as Hfuel
    by (rewrite hello_site_posts; lia).
  split; [exact Hfuel|]. split; [vm_compute; reflexivity|].
  destruct (create_blog_post_fresh_slug scenario_clock ascii_lower 2 hello_post
              hello_site Hfuel) as (u & slug & s' & Hrun & Hslug & Hu & _).
  by exists u, slug, s'.
Defined.


(** X6 at work: in the blog with two "Hello World" posts, the second post
    is the one found under "hello-world-2026-2". *)
Lemma get_blog_post_reaches_every_post_witness :
  post_slugs hello_twice_site
  = [PyStr.lit "hello-world-2026"; PyStr.lit "hello-world-2026-2"]
  /\ exists d,
       blogposts hello_twice_site !! 1%nat = Some d
       /\ d.1 = 1%nat
       /\ BlogPost.slug d.2 = Some (PyStr.lit "hello-world-2026-2")
       /\ MainBlog.get_blog_post demo_str_of_oid (PyStr.lit "hello-world-2026-2")
            hello_twice_site
          = Some (Return (BlogPostOut.mk (demo_str_of_oid d.1) (Some (BlogPost.title d.2))
                            (Some (BlogPost.content d.2)) (BlogPost.image_url d.2)
                            (BlogPost.author d.2) (BlogPost.published_at d.2)
                            (Some (PyStr.lit "hello-world-2026-2"))),
                  hello_twice_site).
Proof.
  assert (post_slugs hello_twice_site
          = [PyStr.lit "hello-world-2026"; PyStr.lit "hello-world-2026-2"]) as Hslugs
    by (vm_compute; reflexivity).
  assert (NoDup (post_slugs hello_twice_site)) as Hnd.
  { rewrite Hslugs. apply (bool_decide_unpack _). vm_compute. exact I. }
  split; [exact Hslugs|].
  assert (fst <$> blogposts hello_twice_site !! 1%nat = Some 1%nat) as Hid
    by (vm_compute; reflexivity).
  assert (blogposts hello_twice_site !! 1%nat ≫= BlogPost.slug ∘ snd
          = Some (PyStr.lit "hello-world-2026-2")) as Hslug
    by (vm_compute; reflexivity).
  destruct (blogposts hello_twice_site !! 1%nat) as [d|] eqn:Hd; [|discriminate Hid].
  injection Hid as Hid. change (BlogPost.slug d.2 = Some (PyStr.lit "hello-world-2026-2")) in Hslug.
  exists d. split; [reflexivity|]. split; [exact Hid|]. split; [exact Hslug|].
  exact (get_blog_post_reaches_every_post demo_str_of_oid hello_twice_site 1 d
           (PyStr.lit "hello-world-2026-2") Hnd Hd Hslug).
Defined.

Lemma create_blog_post_keeps_slugs_unique_witness :
  (length (blogposts hello_site) < 2)%nat
  /\ NoDup (post_slugs hello_site)
  /\ exists r s',
       MainBlog.create_blog_post scenario_clock ascii_lower 2 hello_post hello_site
       = Some (r, s')
       /\ NoDup (post_slugs s')
       /\ (forall x d, coll_find_one (by_slug x) (blogposts hello_site) = Some d ->
             coll_find_one (by_slug x) (blogposts s') = Some d).
Proof.
  assert (length (blogposts hello_site) < 2)%nat as Hfuel
    by (rewrite hello_site_posts; lia).
  assert (NoDup (post_slugs hello_site)) as Hnd
    by (rewrite hello_site_slugs; apply NoDup_singleton).
  split; [exact Hfuel|]. split; [exact Hnd|].
  exact (create_blog_post_keeps_slugs_unique scenario_clock ascii_lower 2 hello_post
           hello_site Hfuel Hnd).
Defined.

Lemma create_repeatedly_numbers_slugs_witness :
  (forall t, slug_candidate
               (MainBlog.base_slug_of ascii_lower (BlogPostCreate.title hello_post)) t
             ∉ post_slugs empty_site)
  /\ exists s',
       MainBlog.create_repeatedly scenario_clock ascii_lower 3 hello_post empty_site
       = Some s'
       /\ post_slugs s'
          = post_slugs empty_site
            ++ (slug_candidate
                  (MainBlog.base_slug_of ascii_lower (BlogPostCreate.title hello_post))
                <$> seq 0 3).
Proof.
  assert (forall t, slug_candidate
                      (MainBlog.base_slug_of ascii_lower (BlogPostCreate.title hello_post)) t
                    ∉ post_slugs empty_site) as Hfree
    by (intros t Hin; inversion Hin).
  split; [exact Hfree|].
  exact (create_repeatedly_numbers_slugs scenario_clock ascii_lower 3 hello_post
           empty_site Hfree).
Defined.

(** * More on the auth routes *)

Section CollectionUpdates.
Context {A : Type} (q : nat * A -> Prop) {qdec : forall d, Decision (q d)}.

(** An update that leaves [g] of a document alone leaves [g] of the
    collection alone. *)
Lemma coll_update_one_fmap {B} (g : nat * A -> B) set (c : list (nat * A)) :
  (forall d, g (d.1, set d.2) = g d) ->
  g <$> coll_update_one q set c = g <$> c.
Proof.
  intros Hg. unfold coll_update_one.
  destruct (list_find q c) as [[j d]|] eqn:E; [|done].
  apply list_find_first_match in E as (Hj & _).
  rewrite list_fmap_insert, Hg. apply list_insert_id.
  by rewrite list_lookup_fmap, Hj.
Qed.

Lemma coll_update_one_lookup set (c : list (nat * A)) i d :
  c !! i = Some d ->
  coll_update_one q set c !! i = Some d
  \/ coll_update_one q set c !! i = Some (d.1, set d.2).
Proof.
  intros Hi. unfold coll_update_one.
  destruct (list_find q c) as [[j d0]|] eqn:E; [|by left].
  apply list_find_first_match in E as (Hj & _).
  destruct (decide (j = i)) as [->|Hne].
  - right. rewrite Hj in Hi. injection Hi as ->.
    apply list_lookup_insert_eq. by eapply lookup_lt_Some.
  - left. by rewrite list_lookup_insert_ne.
Qed.
End CollectionUpdates.

Section AuthProperties.
Variable environ : gmap string string.
Variable clock : nat -> Z.
Variable urandom16 : nat -> Z.

Local Abbreviation hash_password := (Main.hash_password environ).
Local Abbreviation signup := (Main.signup environ clock).
Local Abbreviation login := (Main.login environ clock).
Local Abbreviation password_reset_request := (Main.password_reset_request clock urandom16).
Local Abbreviation password_reset_confirm := (Main.password_reset_confirm environ clock).
Local Abbreviation route := (Main.route environ clock urandom16).
Local Abbreviation serve := (Main.serve environ clock urandom16).

(** One step of a session, seen through the fields no route rewrites. *)
Lemma route_step_idents r w :
  user_ident <$> users w `prefix_of` user_ident <$> users (route r w).2
  /\ token_ident <$> reset_tokens w `prefix_of` token_ident <$> reset_tokens (route r w).2
  /\ (forall i d, reset_tokens w !! i = Some d -> PasswordResetToken.used d.2 = true ->
        exists d', reset_tokens (route r w).2 !! i = Some d'
                   /\ PasswordResetToken.used d'.2 = true)
  /\ (entropy_reads w <= entropy_reads (route r w).2)%nat.
Proof.
  destruct (route_cases environ clock urandom16 r w) as
    [(e & [->| ->])|[(b & u & ->)|[(b & [->| ->])|[(b & t & _ & ->)
     |(b & e & hp & t1 & i & t2 & ->)]]]]; simpl;
    try (split; [done|split; [done|split; [by eauto|done]]]).
  - split; [rewrite fmap_app; by apply prefix_app_r|]. split; [done|].
    split; [by eauto|done].
  - split; [done|]. split; [rewrite fmap_app; by apply prefix_app_r|].
    split; [|lia]. intros j d Hj Hu. exists d. split; [|done].
    by apply lookup_app_l_Some.
  - split; [by rewrite coll_update_one_fmap|].
    split; [by rewrite coll_update_one_fmap|]. split; [|done].
    intros j d Hj Hu.
    destruct (coll_update_one_lookup (by_id i) (PasswordResetToken.set_used t2)
                _ j d Hj) as [H|H]; eexists; (split; [exact H|done]).
Qed.

Lemma serve_idents rs w :
  user_ident <$> users w `prefix_of` user_ident <$> users (serve rs w)
  /\ token_ident <$> reset_tokens w `prefix_of` token_ident <$> reset_tokens (serve rs w)
  /\ (forall i d, reset_tokens w !! i = Some d -> PasswordResetToken.used d.2 = true ->
        exists d', reset_tokens (serve rs w) !! i = Some d'
                   /\ PasswordResetToken.used d'.2 = true)
  /\ (entropy_reads w <= entropy_reads (serve rs w))%nat.
Proof.
  revert w. induction rs as [|r rs IH]; intros w; simpl.
  - split; [done|]. split; [done|]. split; [by eauto|done].
  - destruct (route_step_idents r w) as (Hu & Ht & Hused & He).
    destruct (IH (route r w).2) as (Hu' & Ht' & Hused' & He').
    split; [by etrans|]. split; [by etrans|]. split; [|lia].
    intros i d Hi Hd. destruct (Hused i d Hi Hd) as (d1 & Hi1 & Hd1).
    by apply (Hused' i d1).
Qed.

(** X7. Signing up and logging in compose: after a successful [signup],
    [login] with the same email and password succeeds and returns the email
    and the name given at signup, while a password with another digest is
    refused with 401. *)
Theorem signup_then_login (p : SignupRequest.t) (w : World) :
  (forall d, d ∈ users w -> User.email d.2 <> SignupRequest.email p) ->
  let w1 := (signup p w).2 in
  (signup p w).1 = Return signup_ok_body
  /\ (exists token,
        (login (LoginRequest.mk (SignupRequest.email p) (SignupRequest.password p)) w1).1
        = Return (login_ok_body token (SignupRequest.email p) (SignupRequest.name p)))
  /\ (forall pw, hash_password pw <> hash_password (SignupRequest.password p) ->
        (login (LoginRequest.mk (SignupRequest.email p) pw) w1).1
        = Raise InvalidCredentials).
Proof.
  intros Hno w1.
  assert (coll_find_one (by_email (SignupRequest.email p)) (users w) = None) as E
    by (apply coll_find_one_None; exact Hno).
  assert (coll_find_one (by_email (SignupRequest.email p)) (users w1)
          = Some (next_oid w,
                  User.mk (SignupRequest.email p) (SignupRequest.name p)
                    (hash_password (SignupRequest.password p))
                    (clock (clock_reads w)) (clock (S (clock_reads w))))) as Hfind.
  { subst w1. rewrite (signup_run_new environ clock p w E). simpl.
    apply coll_find_one_Some. eexists. by apply first_match_snoc. }
  split; [by rewrite (signup_run_new environ clock p w E)|]. split.
  - eexists.
    by rewrite (login_run_ok environ clock
                  (LoginRequest.mk (SignupRequest.email p) (SignupRequest.password p))
                  w1 _ Hfind).
  - intros pw Hpw.
    rewrite (login_run_wrong environ clock (LoginRequest.mk (SignupRequest.email p) pw)
               w1 _ Hfind); [done|].
    simpl. congruence.
Qed.

(** X8. Emails stay unique: if no two Users share an email, no session of
    requests makes two Users share one. *)
Theorem emails_stay_unique (rs : list Main.Request) (w : World) :
  NoDup (user_emails w) -> NoDup (user_emails (serve rs w)).
Proof.
  revert w. induction rs as [|r rs IH]; intros w Hnd; simpl; [done|].
  apply IH. unfold user_emails in *.
  destruct r as [p|p|p|p]; simpl.
  - destruct (coll_find_one (by_email (SignupRequest.email p)) (users w)) as [d|] eqn:E.
    + by rewrite (signup_run_duplicate environ clock p w d E).
    + rewrite (signup_run_new environ clock p w E). simpl.
      rewrite fmap_app. apply NoDup_app. split; [done|]. split; [|apply NoDup_singleton].
      intros e (d & -> & Hd)%list_elem_of_fmap Heq%list_elem_of_singleton.
      apply coll_find_one_None in E. by apply (E d Hd).
  - destruct (coll_find_one (by_email (LoginRequest.email p)) (users w)) as [u|] eqn:E.
    + destruct (decide (User.hashed_password u.2
                        = hash_password (LoginRequest.password p))) as [He|Hne].
      * by rewrite (login_run_ok environ clock p w u E He).
      * by rewrite (login_run_wrong environ clock p w u E Hne).
    + by rewrite (login_run_unknown environ clock p w E).
  - destruct (coll_find_one (by_email (PasswordResetRequest.email p)) (users w))
      as [u|] eqn:E.
    + by rewrite (forgot_run_present clock urandom16 p w u E).
    + by rewrite (forgot_run_absent clock urandom16 p w E).
  - destruct (coll_find_one (by_unused_token (PasswordResetConfirm.token p))
                (reset_tokens w)) as [rec|] eqn:E.
    + destruct (decide (PasswordResetToken.expires_at rec.2 < clock (clock_reads w))%Z).
      * by rewrite (confirm_run_expired environ clock p w rec E).
      * rewrite (confirm_run_ok environ clock p w rec E) by lia. simpl.
        by rewrite (coll_update_one_fmap _ (User.email ∘ snd)).
    + by rewrite (confirm_run_invalid environ clock p w E).
Qed.

(** X9. No session of requests removes, reorders or re-identifies a User:
    the [_id], email, name and created_at of the Users, in order, are a
    prefix of what they are after the session. *)
Theorem users_never_removed (rs : list Main.Request) (w : World) :
  user_ident <$> users w `prefix_of` user_ident <$> users (serve rs w).
Proof. by destruct (serve_idents rs w) as (H & _). Qed.

(** X10. No session of requests removes or rewrites a reset token: the
    [_id], user_email, token, expires_at and created_at of the records, in
    order, are a prefix of what they are after the session, and a record
    that is used stays used. *)
Theorem tokens_never_removed_nor_reopened (rs : list Main.Request) (w : World) :
  token_ident <$> reset_tokens w `prefix_of` token_ident <$> reset_tokens (serve rs w)
  /\ (forall i d, reset_tokens w !! i = Some d -> PasswordResetToken.used d.2 = true ->
        exists d', reset_tokens (serve rs w) !! i = Some d'
                   /\ PasswordResetToken.used d'.2 = true).
Proof. by destruct (serve_idents rs w) as (_ & H1 & H2 & _). Qed.

(** X11. Only a password reset rewrites a stored record: [login] writes
    nothing at all, [signup] only appends to the Users and leaves the
    tokens alone, [password_reset_request] only appends to the tokens and
    leaves the Users alone. *)
Theorem only_reset_rewrites_records (w : World) :
  (forall p, users (login p w).2 = users w
             /\ reset_tokens (login p w).2 = reset_tokens w)
  /\ (forall p, users w `prefix_of` users (signup p w).2
                /\ reset_tokens (signup p w).2 = reset_tokens w)
  /\ (forall p, users (password_reset_request p w).2 = users w
                /\ reset_tokens w `prefix_of` reset_tokens (password_reset_request p w).2).
Proof.
  split; [|split]; intros p.
  - destruct (coll_find_one (by_email (LoginRequest.email p)) (users w)) as [u|] eqn:E.
    + destruct (decide (User.hashed_password u.2
                        = hash_password (LoginRequest.password p))) as [He|Hne].
      * by rewrite (login_run_ok environ clock p w u E He).
      * by rewrite (login_run_wrong environ clock p w u E Hne).
    + by rewrite (login_run_unknown environ clock p w E).
  - destruct (coll_find_one (by_email (SignupRequest.email p)) (users w)) as [d|] eqn:E.
    + by rewrite (signup_run_duplicate environ clock p w d E).
    + rewrite (signup_run_new environ clock p w E). simpl. split; [|done].
      by apply prefix_app_r.
  - destruct (coll_find_one (by_email (PasswordResetRequest.email p)) (users w))
      as [u|] eqn:E.
    + rewrite (forgot_run_present clock urandom16 p w u E). simpl. split; [done|].
      by apply prefix_app_r.
    + by rewrite (forgot_run_absent clock urandom16 p w E).
Qed.

Lemma all_used_route T r w :
  (forall d, d ∈ reset_tokens w -> PasswordResetToken.token d.2 = T ->
             PasswordResetToken.used d.2 = true) ->
  UUID.uuid4_hex (urandom16 (entropy_reads w)) <> T ->
  forall d, d ∈ reset_tokens (route r w).2 -> PasswordResetToken.token d.2 = T ->
            PasswordResetToken.used d.2 = true.
Proof.
  intros Hall Hnew.
  destruct (route_cases environ clock urandom16 r w) as
    [(e & [->| ->])|[(b & u & ->)|[(b & [->| ->])|[(b & t & Ht & ->)
     |(b & e & hp & t1 & i & t2 & ->)]]]]; simpl; try done.
  - intros d [Hd| ->%list_elem_of_singleton]%elem_of_app HT; [by apply Hall|].
    simpl in HT. congruence.
  - intros d [Hd|(d0 & Hd0 & _ & ->)]%coll_update_one_elem_inv HT; [by apply Hall|done].
Qed.

(** X12. A token that has been used is refused for good.  If every record
    carrying the token string is used and the generator never draws that
    string again, then after any session of requests
    [password_reset_confirm] with it fails with InvalidToken and changes
    nothing. *)
Theorem used_token_stays_refused (T pw : string) (rs : list Main.Request) (w : World) :
  (forall d, d ∈ reset_tokens w -> PasswordResetToken.token d.2 = T ->
             PasswordResetToken.used d.2 = true) ->
  (forall k, (entropy_reads w <= k)%nat -> UUID.uuid4_hex (urandom16 k) <> T) ->
  password_reset_confirm (PasswordResetConfirm.mk T pw) (serve rs w)
  = (Raise InvalidToken, serve rs w).
Proof.
  intros Hall Hnew.
  assert (forall d, d ∈ reset_tokens (serve rs w) -> PasswordResetToken.token d.2 = T ->
                    PasswordResetToken.used d.2 = true) as Hall'.
  { revert w Hall Hnew. induction rs as [|r rs IH]; intros w Hall Hnew; simpl; [done|].
    apply IH.
    - apply all_used_route; [done|]. by apply Hnew.
    - intros k Hk. apply Hnew.
      destruct (route_step_idents r w) as (_ & _ & _ & He). lia. }
  apply confirm_run_invalid. apply coll_find_one_None.
  intros d Hd [HT Hu]. rewrite (Hall' d Hd HT) in Hu. discriminate.
Qed.

(** X13. Redeeming one token does not invalidate the others.  After a
    successful [password_reset_confirm], a different token that was
    redeemable before is still found, unused and unchanged, and a confirm
    with it succeeds as long as it has not expired. *)
Theorem other_tokens_survive_reset
    (p : PasswordResetConfirm.t) (T2 : string) (w : World)
    (rec1 rec2 : nat * PasswordResetToken.t) :
  store_ok w ->
  coll_find_one (by_unused_token (PasswordResetConfirm.token p)) (reset_tokens w)
  = Some rec1 ->
  (clock (clock_reads w) <= PasswordResetToken.expires_at rec1.2)%Z ->
  T2 <> PasswordResetConfirm.token p ->
  coll_find_one (by_unused_token T2) (reset_tokens w) = Some rec2 ->
  let r := password_reset_confirm p w in
  r.1 = Return reset_ok_body
  /\ coll_find_one (by_unused_token T2) (reset_tokens r.2) = Some rec2
  /\ (forall pw, (clock (clock_reads r.2) <= PasswordResetToken.expires_at rec2.2)%Z ->
        (password_reset_confirm (PasswordResetConfirm.mk T2 pw) r.2).1
        = Return reset_ok_body).
Proof.
  intros [_ [Hnd _]] E1 Hle HT E2 r.
  pose proof E1 as [j1 Hj1]%coll_find_one_Some.
  pose proof E2 as [j2 Hj2]%coll_find_one_Some.
  assert (r = (Return reset_ok_body,
               mkWorld
                 (coll_update_one (by_email (PasswordResetToken.user_email rec1.2))
                    (User.set_password
                       (hash_password (PasswordResetConfirm.new_password p))
                       (clock (S (clock_reads w)))) (users w))
                 (<[j1 := (rec1.1, PasswordResetToken.set_used
                                     (clock (S (S (clock_reads w)))) rec1.2)]>
                    (reset_tokens w))
                 (next_oid w) (S (S (S (clock_reads w)))) (entropy_reads w))) as Hr.
  { subst r. rewrite (confirm_run_ok environ clock p w rec1 E1 Hle).
    destruct Hj1 as (Hl1 & _).
    by rewrite (coll_update_one_first _ _ _ j1 rec1 (first_match_by_id _ j1 rec1 Hnd Hl1)). }
  assert (coll_find_one (by_unused_token T2) (reset_tokens r.2) = Some rec2) as E2'.
  { rewrite Hr. simpl. apply coll_find_one_Some. exists j2.
    destruct Hj1 as (Hl1 & [Ht1 _] & _). destruct Hj2 as (Hl2 & Hq2 & Hbefore2).
    assert (j1 <> j2) as Hne.
    { intros ->. rewrite Hl1 in Hl2. injection Hl2 as ->.
      destruct Hq2 as [Ht2 _]. congruence. }
    split; [by rewrite list_lookup_insert_ne|]. split; [done|].
    intros i d Hi Hlt. destruct (decide (j1 = i)) as [->|Hne'].
    - rewrite list_lookup_insert_eq in Hi by (by eapply lookup_lt_Some).
      injection Hi as <-. intros [Ht _]. simpl in Ht. congruence.
    - rewrite list_lookup_insert_ne in Hi by done. by apply (Hbefore2 i d). }
  split; [by rewrite Hr|]. split; [exact E2'|].
  intros pw Hle2.
  by rewrite (confirm_run_ok environ clock (PasswordResetConfirm.mk T2 pw) r.2 rec2 E2' Hle2).
Qed.

(** X14. A refused request leaves the database as it was: whenever a route
    raises an [HTTPException], the Users and the reset tokens are unchanged
    and no ObjectId or uuid has been consumed. *)
Theorem refused_request_changes_nothing (r : Main.Request) (w : World) (e : HTTPException) :
  (route r w).1 = Raise e ->
  users (route r w).2 = users w
  /\ reset_tokens (route r w).2 = reset_tokens w
  /\ next_oid (route r w).2 = next_oid w
  /\ entropy_reads (route r w).2 = entropy_reads w.
Proof.
  destruct (route_cases environ clock urandom16 r w) as
    [(e' & [->| ->])|[(b & u & ->)|[(b & [->| ->])|[(b & t & _ & ->)
     |(b & e' & hp & t1 & i & t2 & ->)]]]]; simpl; try done.
Qed.
End AuthProperties.

(** Witnesses of X7, X8 and X12 to X14. *)

Lemma signup_then_login_witness :
  let p := SignupRequest.mk "a@x.com" "p1" (Some "Ann") in
  let w1 := (Main.signup ∅ scenario_clock p empty_world).2 in
  (forall d, d ∈ users empty_world -> User.email d.2 <> SignupRequest.email p)
  /\ (Main.signup ∅ scenario_clock p empty_world).1 = Return signup_ok_body
  /\ (exists token,
        (Main.login ∅ scenario_clock
           (LoginRequest.mk (SignupRequest.email p) (SignupRequest.password p)) w1).1
        = Return (login_ok_body token (SignupRequest.email p) (SignupRequest.name p)))
  /\ (forall pw,
        Main.hash_password ∅ pw <> Main.hash_password ∅ (SignupRequest.password p) ->
        (Main.login ∅ scenario_clock (LoginRequest.mk (SignupRequest.email p) pw) w1).1
        = Raise InvalidCredentials).
Proof.
  cbv zeta.
  assert (forall d : nat * User.t, d ∈ users empty_world ->
            User.email d.2 <> SignupRequest.email (SignupRequest.mk "a@x.com" "p1" (Some "Ann")))
    as Hno by (intros d Hd; inversion Hd).
  split; [exact Hno|].
  exact (signup_then_login ∅ scenario_clock
           (SignupRequest.mk "a@x.com" "p1" (Some "Ann")) empty_world Hno).
Defined.

Lemma emails_stay_unique_witness :
  let rs := [Main.PostSignup (SignupRequest.mk "a@x.com" "p1" None);
             Main.PostSignup (SignupRequest.mk "a@x.com" "p9" None);
             Main.PostSignup (SignupRequest.mk "b@x.com" "p1" None)] in
  NoDup (user_emails empty_world)
  /\ user_emails (Main.serve ∅ scenario_clock scenario_urandom rs empty_world)
     = ["a@x.com"; "b@x.com"]
  /\ NoDup (user_emails (Main.serve ∅ scenario_clock scenario_urandom rs empty_world)).
Proof.
  cbv zeta.
  assert (NoDup (user_emails empty_world)) as Hnd by constructor.
  split; [exact Hnd|]. split; [vm_compute; reflexivity|].
  exact (emails_stay_unique ∅ scenario_clock scenario_urandom _ empty_world Hnd).
Defined.

Lemma used_token_stays_refused_witness :
  let rs := [Main.PostForgot (PasswordResetRequest.mk "a@x.com");
             Main.PostLogin (LoginRequest.mk "a@x.com" "p2")] in
  let w := Main.serve ∅ scenario_clock stuck_urandom rs redeemed_world in
  (forall d, d ∈ reset_tokens redeemed_world ->
     PasswordResetToken.token d.2 = scenario_token -> PasswordResetToken.used d.2 = true)
  /\ (forall k, (entropy_reads redeemed_world <= k)%nat ->
        UUID.uuid4_hex (stuck_urandom k) <> scenario_token)
  /\ length (reset_tokens w) = 2%nat
  /\ Main.password_reset_confirm ∅ scenario_clock
       (PasswordResetConfirm.mk scenario_token "p3") w
     = (Raise InvalidToken, w).
Proof.
  cbv zeta.
  assert (forall d, d ∈ reset_tokens redeemed_world ->
            PasswordResetToken.token d.2 = scenario_token ->
            PasswordResetToken.used d.2 = true) as Hall.
  { intros d Hd _. apply list_elem_of_singleton in Hd. by subst d. }
  assert (forall k, (entropy_reads redeemed_world <= k)%nat ->
            UUID.uuid4_hex (stuck_urandom k) <> scenario_token) as Hnew.
  { intros k _. vm_compute. discriminate. }
  split; [exact Hall|]. split; [exact Hnew|]. split; [vm_compute; reflexivity|].
  exact (used_token_stays_refused ∅ scenario_clock stuck_urandom scenario_token "p3"
           _ redeemed_world Hall Hnew).
Defined.

Lemma store_ok_scenario_issued_twice : store_ok scenario_issued_twice.
Proof. apply store_ok_route, store_ok_scenario_issued. Qed.

Lemma other_tokens_survive_reset_witness :
  let p := PasswordResetConfirm.mk scenario_token "p2" in
  let r := Main.password_reset_confirm ∅ scenario_clock p scenario_issued_twice in
  exists rec1 rec2,
    coll_find_one (by_unused_token (PasswordResetConfirm.token p))
      (reset_tokens scenario_issued_twice) = Some rec1
    /\ (scenario_clock (clock_reads scenario_issued_twice)
        <= PasswordResetToken.expires_at rec1.2)%Z
    /\ scenario_second_token <> PasswordResetConfirm.token p
    /\ coll_find_one (by_unused_token scenario_second_token)
         (reset_tokens scenario_issued_twice) = Some rec2
    /\ r.1 = Return reset_ok_body
    /\ coll_find_one (by_unused_token scenario_second_token) (reset_tokens r.2) = Some rec2
    /\ (forall pw,
          (scenario_clock (clock_reads r.2) <= PasswordResetToken.expires_at rec2.2)%Z ->
          (Main.password_reset_confirm ∅ scenario_clock
             (PasswordResetConfirm.mk scenario_second_token pw) r.2).1
          = Return reset_ok_body).
Proof.
  cbv zeta.
  assert (exists rec1,
            coll_find_one (by_unused_token scenario_token)
              (reset_tokens scenario_issued_twice) = Some rec1
            /\ (scenario_clock (clock_reads scenario_issued_twice)
                <= PasswordResetToken.expires_at rec1.2)%Z) as (rec1 & E1 & Hle).
  { eexists. split; [vm_compute; reflexivity|]. vm_compute. discriminate. }
  assert (exists rec2,
            coll_find_one (by_unused_token scenario_second_token)
              (reset_tokens scenario_issued_twice) = Some rec2) as (rec2 & E2).
  { eexists. vm_compute. reflexivity. }
  assert (scenario_second_token <> scenario_token) as HT by (vm_compute; discriminate).
  exists rec1, rec2.
  split; [exact E1|]. split; [exact Hle|]. split; [exact HT|]. split; [exact E2|].
  exact (other_tokens_survive_reset ∅ scenario_clock
           (PasswordResetConfirm.mk scenario_token "p2") scenario_second_token
           scenario_issued_twice rec1 rec2 store_ok_scenario_issued_twice E1 Hle HT E2).
Defined.

Lemma refused_request_changes_nothing_witness :
  let route := Main.route ∅ scenario_clock scenario_urandom in
  let r := Main.PostLogin (LoginRequest.mk "a@x.com" "wrong") in
  (route r scenario_registered).1 = Raise InvalidCredentials
  /\ users (route r scenario_registered).2 = users scenario_registered
  /\ reset_tokens (route r scenario_registered).2 = reset_tokens scenario_registered
  /\ next_oid (route r scenario_registered).2 = next_oid scenario_registered
  /\ entropy_reads (route r scenario_registered).2 = entropy_reads scenario_registered.
Proof.
  cbv zeta.
  assert ((Main.route ∅ scenario_clock scenario_urandom
             (Main.PostLogin (LoginRequest.mk "a@x.com" "wrong")) scenario_registered).1
          = Raise InvalidCredentials) as Hraise by (vm_compute; reflexivity).
  split; [exact Hraise|].
  exact (refused_request_changes_nothing ∅ scenario_clock scenario_urandom _
           scenario_registered _ Hraise).
Defined.


(** ** A reset and the other accounts; blank titles *)

Lemma find_other_email_after_update e e' hp now (us : list (nat * User.t)) :
  e <> e' ->
  coll_find_one (by_email e') (coll_update_one (by_email e) (User.set_password hp now) us)
  = coll_find_one (by_email e') us.
Proof.
  intros Hne.
  destruct (coll_find_one (by_email e) us) as [u|] eqn:E.
  2: { apply coll_find_one_None in E. by rewrite (coll_update_one_none _ _ _ E). }
  apply coll_find_one_Some in E as [i Hi].
  rewrite (coll_update_one_first _ _ _ i u Hi).
  destruct Hi as (Hl & He & _). unfold by_email in He.
  destruct (coll_find_one (by_email e') us) as [d|] eqn:E'.
  - apply coll_find_one_Some in E' as [j (Hj & Hq & Hbefore)].
    apply coll_find_one_Some. exists j.
    assert (i <> j) as Hij.
    { intros ->. rewrite Hl in Hj. injection Hj as ->. unfold by_email in Hq. congruence. }
    split; [by rewrite list_lookup_insert_ne|]. split; [done|].
    intros k x Hk Hlt. destruct (decide (i = k)) as [->|Hik].
    + rewrite list_lookup_insert_eq in Hk by (by eapply lookup_lt_Some).
      injection Hk as <-. unfold by_email. simpl. congruence.
    + rewrite list_lookup_insert_ne in Hk by done. by apply (Hbefore k x).
  - apply coll_find_one_None in E'. apply coll_find_one_None.
    intros x [k Hk]%list_elem_of_lookup. destruct (decide (i = k)) as [->|Hik].
    + rewrite list_lookup_insert_eq in Hk by (by eapply lookup_lt_Some).
      injection Hk as <-. unfold by_email. simpl. congruence.
    + rewrite list_lookup_insert_ne in Hk by done.
      apply E'. by eapply list_elem_of_lookup_2.
Qed.

(** X15. A password reset touches the account of the token only: for every
    email other than the [user_email] of the record the route finds, the
    User that a lookup by that email returns is the same before and after
    [password_reset_confirm], so a login for it is refused after the call
    exactly when it was refused before. *)
Theorem reset_leaves_other_accounts
    (environ : gmap string string) (clock : nat -> Z)
    (p : PasswordResetConfirm.t) (w : World) (q : LoginRequest.t) :
  (forall rec,
     coll_find_one (by_unused_token (PasswordResetConfirm.token p)) (reset_tokens w)
     = Some rec ->
     PasswordResetToken.user_email rec.2 <> LoginRequest.email q) ->
  let w' := (Main.password_reset_confirm environ clock p w).2 in
  coll_find_one (by_email (LoginRequest.email q)) (users w')
  = coll_find_one (by_email (LoginRequest.email q)) (users w)
  /\ ((Main.login environ clock q w').1 = Raise InvalidCredentials
      <-> (Main.login environ clock q w).1 = Raise InvalidCredentials).
Proof.
  intros Hother w'.
  assert (coll_find_one (by_email (LoginRequest.email q)) (users w')
          = coll_find_one (by_email (LoginRequest.email q)) (users w)) as Hsame.
  { subst w'.
    destruct (coll_find_one (by_unused_token (PasswordResetConfirm.token p))
                (reset_tokens w)) as [rec|] eqn:E.
    - destruct (decide (PasswordResetToken.expires_at rec.2 < clock (clock_reads w))%Z).
      + by rewrite (confirm_run_expired environ clock p w rec E).
      + rewrite (confirm_run_ok environ clock p w rec E) by lia. simpl.
        apply find_other_email_after_update. by apply Hother.
    - by rewrite (confirm_run_invalid environ clock p w E). }
  split; [exact Hsame|].
  destruct (coll_find_one (by_email (LoginRequest.email q)) (users w)) as [u|] eqn:E.
  - destruct (decide (User.hashed_password u.2
                      = Main.hash_password environ (LoginRequest.password q))) as [He|Hn].
    + rewrite (login_run_ok environ clock q w u E He),
              (login_run_ok environ clock q w' u Hsame He).
      simpl. split; discriminate.
    + by rewrite (login_run_wrong environ clock q w u E Hn),
                 (login_run_wrong environ clock q w' u Hsame Hn).
  - by rewrite (login_run_unknown environ clock q w E),
               (login_run_unknown environ clock q w' Hsame).
Qed.

Lemma reset_leaves_other_accounts_witness :
  let p := PasswordResetConfirm.mk scenario_token "p2" in
  let q := LoginRequest.mk "b@x.com" "q1" in
  let w' := (Main.password_reset_confirm ∅ scenario_clock p two_accounts_issued).2 in
  (forall rec,
     coll_find_one (by_unused_token (PasswordResetConfirm.token p))
       (reset_tokens two_accounts_issued) = Some rec ->
     PasswordResetToken.user_email rec.2 <> LoginRequest.email q)
  /\ User.hashed_password ∘ snd <$> users two_accounts_issued
     = [Main.hash_password ∅ "p1"; Main.hash_password ∅ "q1"]
  /\ User.hashed_password ∘ snd <$> users w'
     = [Main.hash_password ∅ "p2"; Main.hash_password ∅ "q1"]
  /\ coll_find_one (by_email (LoginRequest.email q)) (users w')
     = coll_find_one (by_email (LoginRequest.email q)) (users two_accounts_issued)
  /\ ((Main.login ∅ scenario_clock q w').1 = Raise InvalidCredentials
      <-> (Main.login ∅ scenario_clock q two_accounts_issued).1 = Raise InvalidCredentials).
Proof.
  cbv zeta.
  assert (forall rec,
            coll_find_one (by_unused_token scenario_token)
              (reset_tokens two_accounts_issued) = Some rec ->
            PasswordResetToken.user_email rec.2 <> "b@x.com") as Hother.
  { assert (PasswordResetToken.user_email ∘ snd
            <$> coll_find_one (by_unused_token scenario_token)
                  (reset_tokens two_accounts_issued) = Some "a@x.com") as Hc
      by (vm_compute; reflexivity).
    intros rec E. rewrite E in Hc. simpl in Hc. injection Hc as ->. discriminate. }
  split; [exact Hother|]. split; [vm_compute; reflexivity|].
  split; [vm_compute; reflexivity|].
  exact (reset_leaves_other_accounts ∅ scenario_clock
           (PasswordResetConfirm.mk scenario_token "p2") two_accounts_issued
           (LoginRequest.mk "b@x.com" "q1") Hother).
Defined.

Lemma lstrip_blank s : Forall (fun c => PyStr.isspace c = true) s -> PyStr.lstrip s = [].
Proof. induction 1 as [|c s Hc _ IH]; simpl; [done|]. by rewrite Hc. Qed.

(** X16. A title that lower-cases to nothing but whitespace has the empty
    base slug, and unless a post with the empty slug exists already,
    [create_blog_post] files the post under the empty slug. *)
Theorem blank_title_empty_slug
    (clock : nat -> Z) (lower : pystr -> pystr)
    (fuel : nat) (payload : BlogPostCreate.t) (s : Site) :
  Forall (fun c => PyStr.isspace c = true) (lower (BlogPostCreate.title payload)) ->
  (length (blogposts s) < fuel)%nat ->
  (forall d, d ∈ blogposts s -> BlogPost.slug d.2 <> Some []) ->
  MainBlog.base_slug_of lower (BlogPostCreate.title payload) = []
  /\ exists s',
       MainBlog.create_blog_post clock lower fuel payload s
       = Some (Return (BlogCreated.mk true []), s')
       /\ post_slugs s' = post_slugs s ++ [[]].
Proof.
  intros Hblank Hfuel Hfree.
  assert (MainBlog.base_slug_of lower (BlogPostCreate.title payload) = []) as Hbase.
  { unfold MainBlog.base_slug_of, PyStr.strip, PyStr.rstrip.
    by rewrite (lstrip_blank _ Hblank). }
  split; [exact Hbase|].
  destruct (create_blog_post_outcome clock lower fuel payload s Hfuel)
    as (u & Hu & Hufree & Hbefore & Hrun).
  assert (u = 0%nat) as ->.
  { destruct u as [|u]; [done|].
    specialize (Hbefore 0%nat ltac:(lia)). simpl in Hbefore. rewrite Hbase in Hbefore.
    apply list_elem_of_omap in Hbefore as (d & Hd & Hs). by destruct (Hfree d Hd). }
  simpl in Hrun. rewrite Hbase in Hrun.
  eexists. split; [exact Hrun|]. apply post_slugs_posted.
Qed.

Lemma blank_title_empty_slug_witness :
  let payload := BlogPostCreate.mk (PyStr.lit "   ") None (PyStr.lit "text") None None in
  Forall (fun c => PyStr.isspace c = true) (ascii_lower (BlogPostCreate.title payload))
  /\ (length (blogposts hello_site) < 2)%nat
  /\ (forall d, d ∈ blogposts hello_site -> BlogPost.slug d.2 <> Some [])
  /\ MainBlog.base_slug_of ascii_lower (BlogPostCreate.title payload) = []
  /\ exists s',
       MainBlog.create_blog_post scenario_clock ascii_lower 2 payload hello_site
       = Some (Return (BlogCreated.mk true []), s')
       /\ post_slugs s' = post_slugs hello_site ++ [[]].
Proof.
  cbv zeta.
  assert (Forall (fun c => PyStr.isspace c = true)
            (ascii_lower (BlogPostCreate.title
               (BlogPostCreate.mk (PyStr.lit "   ") None (PyStr.lit "text") None None))))
    as Hblank by (repeat constructor).
  assert (length (blogposts hello_site) < 2)%nat as Hfuel
    by (rewrite hello_site_posts; lia).
  assert (forall d, d ∈ blogposts hello_site -> BlogPost.slug d.2 <> Some []) as Hfree.
  { intros d Hd Hs.
    assert ([] ∈ post_slugs hello_site) as Hin
      by (apply list_elem_of_omap; by exists d).
    rewrite hello_site_slugs in Hin. apply list_elem_of_singleton in Hin. discriminate. }
  split; [exact Hblank|]. split; [exact Hfuel|]. split; [exact Hfree|].
  exact (blank_title_empty_slug scenario_clock ascii_lower 2 _ hello_site
           Hblank Hfuel Hfree).
Defined.
